(** * dink: the reconciliation engine of [main.ts]

    A shallow embedding of [isDinkModules], [deleteRemovedFiles],
    [writeLinkFile], [generateLockFile], [readLockFile] and [ensure],
    followed by the properties of the design document that concern them.

    Conventions of the model.
    - A JavaScript string is a Rocq [string]: code units below 256.
    - A JavaScript object used as a dictionary ([Modules]) is the list of its
      own properties in enumeration order, as [Object.entries] yields them;
      keys of an object are pairwise distinct.
    - A relative, normalised path is the list of its segments; [[]] is the
      working directory ["."].
    - [async] code is a state-and-exception monad over the file system and a
      log of network events.  [Promise.all] over a mapped array runs the
      invocations from left to right and rejects at the first rejection;
      interleavings of sibling invocations are not represented. *)

From Stdlib Require Import ZArith List Bool Ascii String Lia.
From stdpp Require Import base option list strings pretty gmap fin_maps.

Local Open Scope Z_scope.
Local Set Warnings "-register-all".

(** ** Strings *)

(** The double quote, code unit 34. *)
Definition dq : string := String "034"%char EmptyString.

(** [\s] of a regular expression and [StrWhiteSpaceChar] of [parseInt],
    restricted to code units below 256: TAB, LF, VT, FF, CR, SP, NBSP. *)
Definition isSpace (c : ascii) : bool :=
  let n := nat_of_ascii c in
  ((9 <=? n) && (n <=? 13) || (n =? 32) || (n =? 160))%nat.

Fixpoint allSpace (s : string) : bool :=
  match s with
  | EmptyString => true
  | String c r => isSpace c && allSpace r
  end.

Fixpoint skipSpace (s : string) : string :=
  match s with
  | String c r => if isSpace c then skipSpace r else s
  | EmptyString => s
  end.

Fixpoint stripPrefix (pre s : string) : option string :=
  match pre, s with
  | EmptyString, _ => Some s
  | String a pre', String b s' =>
      if Ascii.eqb a b then stripPrefix pre' s' else None
  | String _ _, EmptyString => None
  end.

(** ** JSON documents and the manifest validator *)

Inductive json :=
| JNull
| JBool (b : bool)
| JNum (lexeme : string)
| JStr (s : string)
| JArr (items : list json)
| JObj (props : list (string * json)).

Inductive jstype := TObject | TString | TNumber | TBoolean | TUndefined.

(** [typeof v]; [None] is [undefined]. *)
Definition typeof (v : option json) : jstype :=
  match v with
  | None => TUndefined
  | Some (JStr _) => TString
  | Some (JNum _) => TNumber
  | Some (JBool _) => TBoolean
  | Some JNull | Some (JArr _) | Some (JObj _) => TObject
  end.

Definition isString (v : option json) : bool :=
  match typeof v with TString => true | _ => false end.

Definition isStr (v : json) : bool := isString (Some v).

Inductive error :=
| TypeError
| SyntaxError
| LockFormat (errors : list string)
| FetchFailed (specifier : string)
| TooBig (contentLength : Z)
| NetworkError (specifier : string)
| IOError (op : string) (p : list string)
| OutOfFuel.

Inductive result (A : Type) :=
| Ok (a : A)
| Err (e : error).
Arguments Ok {A} a.
Arguments Err {A} e.

Fixpoint assoc {A : Type} (k : string) (l : list (string * A)) : option A :=
  match l with
  | [] => None
  | (k', v) :: r => if String.eqb k k' then Some v else assoc k r
  end.

Definition indexed {A : Type} (l : list A) : list (string * A) :=
  imap (fun i v => (pretty i, v)) l.

(** The keys [k] that [for (const k in x)] visits, each with [x[k]]: the own
    properties of the document, all of which pass [x.hasOwnProperty(k)] when
    that call returns.  [for-in] over [null] visits nothing. *)
Definition forInOwn (x : json) : list (string * json) :=
  match x with
  | JObj kvs => kvs
  | JArr l => indexed l
  | JStr s => indexed (map (fun c => JStr (String c EmptyString))
                           (list_ascii_of_string s))
  | _ => []
  end.

(** [m[name]] for [name] one of ["version"], ["modules"]: a [TypeError] on
    [null]; an own property of an object; [undefined] on arrays, strings,
    numbers and booleans, whose prototypes have neither name. *)
Definition getProp (m : json) (name : string) : result (option json) :=
  match m with
  | JNull => Err TypeError
  | JObj kvs => Ok (assoc name kvs)
  | _ => Ok None
  end.

Definition msgNotObject : string := "is not object".
Definition msgVersion : string := dq +:+ "version" +:+ dq +:+ " must be string".
Definition msgModules : string := dq +:+ "modules" +:+ dq +:+ " must be array".
Definition msgContent : string :=
  dq +:+ "content of " +:+ dq +:+ "modules" +:+ dq +:+ " must be string".

(** The body of the [for-in] loop of [isDinkModules] for one entry [m]. *)
Definition checkEntry (m : json) (errors : list string)
  : result (bool * list string) :=
  match getProp m "version" with
  | Err e => Err e
  | Ok ver =>
      if negb (isString ver) then Ok (false, errors ++ [msgVersion])
      else
        match getProp m "modules" with
        | Err e => Err e
        | Ok (Some (JArr l)) =>
            if forallb isStr l then Ok (true, errors)
            else Ok (false, errors ++ [msgContent])
        | Ok _ => Ok (false, errors ++ [msgModules])
        end
  end.

Fixpoint checkEntries (kvs : list (string * json)) (errors : list string)
  : result (bool * list string) :=
  match kvs with
  | [] => Ok (true, errors)
  | (_, m) :: rest =>
      match checkEntry m errors with
      | Ok (true, errors') => checkEntries rest errors'
      | other => other
      end
  end.

(** Whether [x.hasOwnProperty] is a property of the document itself rather
    than the method of [Object.prototype].  A value that comes from JSON is
    not callable, so that [x.hasOwnProperty(k)] then throws a [TypeError]. *)
Definition ownsHasOwnProperty (x : json) : bool :=
  match x with
  | JObj kvs =>
      match assoc "hasOwnProperty" kvs with
      | Some _ => true
      | None => false
      end
  | _ => false
  end.

(** [isDinkModules(x, errors)]: the returned boolean and the array [errors]
    after the call, or the exception thrown.  An object that owns the name
    [hasOwnProperty] has at least that property, so the loop has a first turn
    and the call in its test throws. *)
Definition isDinkModules (x : json) (errors : list string)
  : result (bool * list string) :=
  match typeof (Some x) with
  | TObject =>
      if ownsHasOwnProperty x then Err TypeError
      else checkEntries (forInOwn x) errors
  | _ => Ok (false, errors ++ [msgNotObject])
  end.

(** ** Manifests and lock states *)

Record Module := { version : string; modules : list string }.

Abbreviation Modules := (list (string * Module)).

Definition moduleToJson (m : Module) : json :=
  JObj [("version"%string, JStr (version m));
        ("modules"%string, JArr (map JStr (modules m)))].

(** The object [modules] as [JSON.stringify] sees it. *)
Definition toJson (mods : Modules) : json :=
  JObj (map (fun kv => (fst kv, moduleToJson (snd kv))) mods).

Definition strOf (j : json) : string :=
  match j with JStr s => s | _ => EmptyString end.

Definition asModule (j : json) : Module :=
  {| version := match j with
                | JObj kvs => match assoc "version" kvs with
                              | Some v => strOf v
                              | None => EmptyString
                              end
                | _ => EmptyString
                end;
     modules := match j with
                | JObj kvs => match assoc "modules" kvs with
                              | Some (JArr l) => map strOf l
                              | _ => []
                              end
                | _ => []
                end |}.

(** A validated document read as [Modules].  [None] stands for a value on
    which [Object.entries] throws and which is falsy ([null]). *)
Definition asModules (j : json) : option Modules :=
  match j with
  | JNull => None
  | _ => Some (map (fun kv => (fst kv, asModule (snd kv))) (forInOwn j))
  end.

(** ** The file system and the network *)

Abbreviation path := (list string).

(** What a file holds: [Doc j] is the text [JSON.stringify(j, null, "  ")],
    which [JSON.parse] reads back as [j]; [Text s] is any other text, on
    which [JSON.parse] throws (every [Text] the program writes is a shim). *)
Inductive content :=
| Text (s : string)
| Doc (j : json).

Inductive node :=
| File (c : content)
| Dir.

Inductive event :=
| Fetched (specifier : string)
| BodyRead (specifier : string).

(** The working directory is always present and never a key of [files];
    [net] lists the network events, latest first. *)
Record World := { files : gmap path node; net : list event }.

Record Response := {
  status : Z;
  contentLengthHeader : option string;
  url : string;
  body : string
}.

(** Whether a string has a colon in it. *)
Fixpoint hasColon (s : string) : bool :=
  match s with
  | EmptyString => false
  | String c r => Ascii.eqb c ":"%char || hasColon r
  end.

(** The imported capabilities that [main.ts] calls but does not define.
    - [url_dir k] is [path.join("./vendor", scheme, hostname, pathname)] for
      [new URL(k)], and [None] when the [URL] constructor throws;
    - [join dir i] is [path.join(dir, i)];
    - [fetch specifier] is the response of the [GET], [None] when the request
      itself fails;
    - [url_scheme]: with no base, the [URL] constructor accepts only a string
      that has a scheme, which ends in a colon.  No property name of
      [Object.prototype] has a colon, so that [modules[k]] and [lockFile[host]]
      read own properties wherever the code reaches them. *)
Class Platform := {
  url_dir : string -> option path;
  join : path -> string -> path;
  fetch : string -> option Response;
  url_scheme : forall k, hasColon k = false -> url_dir k = None
}.

(** [path.dirname] on a normalised relative path; [dirname(".")] is ["."]. *)
Definition dirname (p : path) : path := removelast p.

Definition lockPath : path := ["modules-lock.json"%string].

Definition present (fs : gmap path node) (p : path) : bool :=
  match p with
  | [] => true
  | _ => match fs !! p with Some _ => true | None => false end
  end.

Definition isDir (fs : gmap path node) (p : path) : bool :=
  match p with
  | [] => true
  | _ => match fs !! p with Some Dir => true | _ => false end
  end.

(** The entries of directory [d]. *)
Definition entries (fs : gmap path node) (d : path) : list path :=
  filter (fun p => p <> [] /\ dirname p = d) (map fst (map_to_list fs)).

(** [Deno.mkdir(d, true)] creates the missing directories from [base]
    downwards and fails on a file in the way. *)
Fixpoint mkdirFrom (base : path) (segs : list string) (fs : gmap path node)
  : option (gmap path node) :=
  match segs with
  | [] => Some fs
  | s :: rest =>
      let q := base ++ [s] in
      match fs !! q with
      | Some (File _) => None
      | Some Dir => mkdirFrom q rest fs
      | None => mkdirFrom q rest (<[q := Dir]> fs)
      end
  end.

(** ** The monad of [async] functions *)

Definition IO (A : Type) : Type := World -> result A * World.

Definition ret {A : Type} (a : A) : IO A := fun w => (Ok a, w).

Definition throw {A : Type} (e : error) : IO A := fun w => (Err e, w).

Definition bind {A B : Type} (m : IO A) (k : A -> IO B) : IO B :=
  fun w =>
    match m w with
    | (Ok a, w') => k a w'
    | (Err e, w') => (Err e, w')
    end.

Notation "'let*' x ':=' m 'in' k" := (bind m (fun x => k))
  (at level 10, x name, m at level 100, k at level 200).

(** [await Promise.all(l.map(f))], under the convention of this file: the
    invocations run to their end one after the other, and the first one that
    throws ends the loop.  What the runtime adds is left out: the steps of
    sibling invocations interleave, and siblings of one that has thrown go
    on. *)
Fixpoint forEach {A : Type} (f : A -> IO unit) (l : list A) : IO unit :=
  match l with
  | [] => ret tt
  | x :: rest => let* _ := f x in forEach f rest
  end.

Definition setFiles (fs : gmap path node) (w : World) : World :=
  {| files := fs; net := net w |}.

Definition logEvent (e : event) (w : World) : World :=
  {| files := files w; net := e :: net w |}.

(** [fs.exists(p)]. *)
Definition fs_exists (p : path) : IO bool :=
  fun w => (Ok (present (files w) p), w).

(** [Deno.readDir(d)]. *)
Definition readDir (d : path) : IO (list path) :=
  fun w =>
    if isDir (files w) d then (Ok (entries (files w) d), w)
    else (Err (IOError "readDir" d), w).

(** [Deno.remove(p)], not recursive: a file, or an empty directory; the
    working directory cannot be removed. *)
Definition remove (p : path) : IO unit :=
  fun w =>
    match p with
    | [] => (Err (IOError "remove" p), w)
    | _ =>
        match files w !! p with
        | None => (Err (IOError "remove" p), w)
        | Some (File _) => (Ok tt, setFiles (delete p (files w)) w)
        | Some Dir =>
            match entries (files w) p with
            | [] => (Ok tt, setFiles (delete p (files w)) w)
            | _ => (Err (IOError "remove" p), w)
            end
        end
    end.

(** [Deno.mkdir(d, true)]. *)
Definition mkdir (d : path) : IO unit :=
  fun w =>
    match mkdirFrom [] d (files w) with
    | Some fs => (Ok tt, setFiles fs w)
    | None => (Err (IOError "mkdir" d), w)
    end.

(** Create or truncate the file [p] and write [c] to it: [Deno.open(p, "w")]
    followed by [Deno.write] and [close], and [Deno.writeFile(p, c)]. *)
Definition writeFile (p : path) (c : content) : IO unit :=
  fun w =>
    match p with
    | [] => (Err (IOError "open" p), w)
    | _ =>
        match files w !! p with
        | Some Dir => (Err (IOError "open" p), w)
        | _ =>
            if isDir (files w) (dirname p)
            then (Ok tt, setFiles (<[p := File c]> (files w)) w)
            else (Err (IOError "open" p), w)
        end
    end.

(** [Deno.readFile(p)]. *)
Definition readFile (p : path) : IO content :=
  fun w =>
    match files w !! p with
    | Some (File c) => (Ok c, w)
    | _ => (Err (IOError "readFile" p), w)
    end.

(** [JSON.parse] of a file's text. *)
Definition JSON_parse (c : content) : result json :=
  match c with
  | Doc j => Ok j
  | Text _ => Err SyntaxError
  end.

Definition lift {A : Type} (r : result A) : IO A :=
  fun w => (r, w).

(** ** [parseInt] and the size guard *)

(** The value of a digit in radix 36, as [parseInt] reads it. *)
Definition digitVal (c : ascii) : option Z :=
  let n := Z.of_nat (nat_of_ascii c) in
  if (48 <=? n) && (n <=? 57) then Some (n - 48)
  else if (97 <=? n) && (n <=? 122) then Some (n - 87)
  else if (65 <=? n) && (n <=? 90) then Some (n - 55)
  else None.

(** The longest prefix of radix-[radix] digits; [acc] is [None] until a
    digit has been read. *)
Fixpoint digitsAcc (radix : Z) (s : string) (acc : option Z) : option Z :=
  match s with
  | EmptyString => acc
  | String c r =>
      match digitVal c with
      | Some d =>
          if d <? radix
          then digitsAcc radix r (Some (radix * default 0 acc + d))
          else acc
      | None => acc
      end
  end.

Definition isX (c : ascii) : bool :=
  Ascii.eqb c "x"%char || Ascii.eqb c "X"%char.

(** The sign that [parseInt] strips. *)
Definition splitSign (s : string) : bool * string :=
  match s with
  | String c r =>
      if Ascii.eqb c "-"%char then (true, r)
      else if Ascii.eqb c "+"%char then (false, r)
      else (false, s)
  | EmptyString => (false, s)
  end.

(** The radix that [parseInt] picks when it is given none. *)
Definition splitRadix (s : string) : Z * string :=
  match s with
  | String z (String x r) =>
      if Ascii.eqb z "0"%char && isX x then (16, r) else (10, s)
  | _ => (10, s)
  end.

(** [parseInt(s)] with no radix; [None] is [NaN].  The result is the exact
    integer: rounding to a double is monotone and fixes 10000000, so the
    comparison of the guard is the same. *)
Definition parseInt (s : string) : option Z :=
  let signed := splitSign (skipSpace s) in
  let based := splitRadix (snd signed) in
  match digitsAcc (fst based) (snd based) None with
  | None => None
  | Some n => Some (if fst signed then - n else n)
  end.

(** [resp.headers.get("content-length") || "0"]. *)
Definition headerOrZero (h : option string) : string :=
  match h with
  | None => "0"
  | Some EmptyString => "0"
  | Some s => s
  end.

(** [contentLength > 10000000]; a comparison with [NaN] is false. *)
Definition tooBig (contentLength : option Z) : bool :=
  match contentLength with
  | Some n => 10000000 <? n
  | None => false
  end.

(** ** The shim *)

(** One attempt of [/export[\s\t]*default[\s\t]/] at the start of [s].
    The star is greedy; giving a space back cannot help, since ["default"]
    does not start with a space. *)
Definition matchHere (s : string) : bool :=
  match stripPrefix "export" s with
  | Some r =>
      match stripPrefix "default" (skipSpace r) with
      | Some (String c _) => isSpace c
      | _ => false
      end
  | None => false
  end.

(** [!!code.match(/export[\s\t]*default[\s\t]/)]. *)
Fixpoint hasDefaultExport (code : string) : bool :=
  matchHere code ||
  match code with
  | String _ r => hasDefaultExport r
  | EmptyString => false
  end.

Definition nl : string := String "010"%char EmptyString.

Definition wildcardLine (u : string) : string :=
  "export * from " +:+ dq +:+ u +:+ dq +:+ ";" +:+ nl.

Definition defaultLines (u : string) : string :=
  ("import {default as dew} from " +:+ dq +:+ u +:+ dq +:+ ";" +:+ nl)
  +:+ ("export default dew;" +:+ nl).

(** The text [link] of [writeLinkFile]. *)
Definition linkText (u code : string) : string :=
  if hasDefaultExport code
  then wildcardLine u +:+ defaultLines u
  else wildcardLine u.

(** The pattern in the words of the design document: [export], whitespace,
    [default], whitespace. *)
Definition SpecPattern (code : string) : Prop :=
  exists pre ws c post,
    code = pre +:+ "export" +:+ ws +:+ "default" +:+ String c post
    /\ ws <> EmptyString /\ allSpace ws = true /\ isSpace c = true.

(** The pattern of the regular expression: zero or more spaces after
    [export], one space after [default]. *)
Definition RegexPattern (code : string) : Prop :=
  exists pre ws c post,
    code = pre +:+ "export" +:+ ws +:+ "default" +:+ String c post
    /\ allSpace ws = true /\ isSpace c = true.

(** ** The program *)

Section Program.
Context {P : Platform}.

(** [new Set<string>(l)]: the elements in insertion order, each once. *)
Fixpoint setFrom (l : list string) : list string :=
  match l with
  | [] => []
  | x :: r => x :: filter (fun y => y <> x) (setFrom r)
  end.

(** [set.delete(i)]. *)
Definition setDelete (s : list string) (i : string) : list string :=
  filter (fun y => y <> i) s.

(** What one iteration of the first loop of [deleteRemovedFiles] pushes on
    [removedFiles], for the lock entry [k, v] with directory [dir].
    [modules[k]] is an own property or [undefined]: a key that [new URL]
    accepts contains a colon, and no inherited property name does. *)
Definition removedOf (mods : Modules) (k : string) (v : Module) (dir : path)
  : list path :=
  match assoc k mods with
  | None => map (join dir) (modules v)
  | Some m =>
      map (join dir) (foldl setDelete (setFrom (modules v)) (modules m))
  end.

(** The array [removedFiles] after the first loop, or the [TypeError] of
    [new URL]. *)
Fixpoint removedFiles (mods : Modules) (lockEntries : Modules)
  : result (list path) :=
  match lockEntries with
  | [] => Ok []
  | (k, v) :: rest =>
      match url_dir k with
      | None => Err TypeError
      | Some dir =>
          match removedFiles mods rest with
          | Ok l => Ok (removedOf mods k v dir ++ l)
          | Err e => Err e
          end
      end
  end.

(** The [while] loop of [deleteRemovedFiles]; [fuel] bounds its turns. *)
Fixpoint cleanup (fuel : nat) (dir : path) : IO unit :=
  match fuel with
  | O => throw OutOfFuel
  | S n =>
      let* es := readDir dir in
      match es with
      | [] => let* _ := remove dir in cleanup n (dirname dir)
      | _ => ret tt
      end
  end.

(** The callback mapped over [removedFiles]. *)
Definition removeFile (i : path) : IO unit :=
  let* ex := fs_exists i in
  if negb ex then ret tt
  else
    let* _ := remove i in
    cleanup (S (length i)) (dirname i).

(** [deleteRemovedFiles(modules, lockFile)]; [Object.entries(undefined)]
    throws. *)
Definition deleteRemovedFiles (mods : Modules) (lockFile : option Modules)
  : IO unit :=
  match lockFile with
  | None => throw TypeError
  | Some lf =>
      let* l := lift (removedFiles mods lf) in
      forEach removeFile l
  end.

(** [lockedVersion] of [writeLinkFile]; the empty string is falsy. *)
Definition lockedVersionOf (host ver : string) (lockFile : option Modules)
  : string :=
  match lockFile with
  | Some lf =>
      match assoc host lf with
      | Some e =>
          match version e with
          | EmptyString => ver
          | v => v
          end
      | None => ver
      end
  | None => ver
  end.

(** [fetch(specifier, { method: "GET" })]. *)
Definition httpGet (specifier : string) : IO Response :=
  fun w =>
    match fetch specifier with
    | Some r => (Ok r, logEvent (Fetched specifier) w)
    | None => (Err (NetworkError specifier), logEvent (Fetched specifier) w)
    end.

(** [resp.text()]. *)
Definition text (specifier : string) (r : Response) : IO string :=
  fun w => (Ok (body r), logEvent (BodyRead specifier) w).

(** [writeLinkFile({host, version, lockFile})(mod)]. *)
Definition writeLinkFile (host ver : string) (lockFile : option Modules)
  (modName : string) : IO unit :=
  match url_dir host with
  | None => throw TypeError
  | Some dir =>
      let modFile := join dir modName in
      let modDir := dirname modFile in
      let lockedVersion := lockedVersionOf host ver lockFile in
      let specifier := host +:+ ver +:+ modName in
      let* hasLink := fs_exists modFile in
      if hasLink && String.eqb ver lockedVersion then ret tt
      else
        let* resp := httpGet specifier in
        if negb (status resp =? 200) then throw (FetchFailed specifier)
        else
          let contentLength :=
            parseInt (headerOrZero (contentLengthHeader resp)) in
          if tooBig contentLength
          then throw (TooBig (default 0 contentLength))
          else
            let* code := text specifier resp in
            let link := linkText (url resp) code in
            let* _ := mkdir modDir in
            writeFile modFile (Text link)
  end.

(** [generateLockFile(modules)]. *)
Definition generateLockFile (mods : Modules) : IO unit :=
  writeFile lockPath (Doc (toJson mods)).

(** [readLockFile()]; [None] is [undefined] (or a validated [null]). *)
Definition readLockFile : IO (option Modules) :=
  let* ex := fs_exists lockPath in
  if ex then
    let* f := readFile lockPath in
    let* lock := lift (JSON_parse f) in
    let* chk := lift (isDinkModules lock []) in
    if fst chk then ret (asModules lock)
    else throw (LockFormat (snd chk))
  else ret None.

(** The body of the [for] loop of [ensure] for the entry [host, v]. *)
Definition ensureHost (mods : Modules) (lockFile : option Modules)
  (hv : string * Module) : IO unit :=
  let* _ := forEach (writeLinkFile (fst hv) (version (snd hv)) lockFile)
                    (modules (snd hv)) in
  generateLockFile mods.

(** [ensure(modules)]. *)
Definition ensure (mods : Modules) : IO unit :=
  let* lockFile := readLockFile in
  let* _ := deleteRemovedFiles mods lockFile in
  forEach (ensureHost mods lockFile) mods.

End Program.

(** ** The command line *)

(** What [main] reads of [flags.parse(Deno.args, ...)]: whether [args["V"]],
    [args["ver"]], [args["h"]] and [args["help"]] are truthy, and the path
    that [args["f"]] names when it is truthy. *)
Record Args := {
  flagV : bool;
  flagVer : bool;
  flagH : bool;
  flagHelp : bool;
  flagF : option path
}.

(** How the process ends: [Deno.exit(code)], or the rejection of [main()]. *)
Inductive outcome :=
| Exit (code : Z)
| Uncaught (e : error).

(** [opts.file] before [-f] is looked at: ["./modules.json"]. *)
Definition manifestPath : path := ["modules.json"%string].

Section Main.
Context {P : Platform}.

(** [ensure(json)] on the parsed manifest itself, which [main] passes on
    after the validator has accepted it: the entries are those of
    [Object.entries(json)], and [generateLockFile] writes the document as it
    is.  On [null], [Object.entries] or [modules[k]] throws a [TypeError]
    once the lock file has been read, before anything is removed. *)
Definition ensureDoc (j : json) : IO unit :=
  match asModules j with
  | None => let* _ := readLockFile in throw TypeError
  | Some mods =>
      let* lockFile := readLockFile in
      let* _ := deleteRemovedFiles mods lockFile in
      forEach (fun hv =>
                 let* _ := forEach (writeLinkFile (fst hv) (version (snd hv))
                                      lockFile)
                                   (modules (snd hv)) in
                 writeFile lockPath (Doc j))
              mods
  end.

(** [main()]. *)
Definition main (args : Args) (w : World) : outcome * World :=
  if flagV args || flagVer args then (Exit 0, w)
  else if flagH args || flagHelp args then (Exit 0, w)
  else
    let file := match flagF args with
                | Some p => p
                | None => manifestPath
                end in
    if negb (present (files w) file) then (Exit 1, w)
    else
      match readFile file w with
      | (Err e, w1) => (Uncaught e, w1)
      | (Ok c, w1) =>
          match JSON_parse c with
          | Err e => (Uncaught e, w1)
          | Ok json =>
              match isDinkModules json [] with
              | Err e => (Uncaught e, w1)
              | Ok (false, _) => (Exit 1, w1)
              | Ok (true, _) =>
                  match ensureDoc json w1 with
                  | (Ok _, w2) => (Exit 0, w2)
                  | (Err e, w2) => (Uncaught e, w2)
                  end
              end
          end
      end.

End Main.

(** ** A concrete platform and concrete runs *)

Definition stdHost : string := "https://deno.land/std".
Definition xHost : string := "https://deno.land/x".

Definition unslash (m : string) : string :=
  match m with
  | String c r => if Ascii.eqb c "/"%char then r else m
  | EmptyString => m
  end.

Definition okResponse (u : string) : Response :=
  {| status := 200; contentLengthHeader := Some "19"%string; url := u;
     body := "export const a = 1;" |}.

Definition notFound (u : string) : Response :=
  {| status := 404; contentLengthHeader := None; url := u;
     body := EmptyString |}.

(** [new URL] and [path.join] on the two hosts under [deno.land], and on
    [std] written with a trailing slash, which resolves to the directory of
    [std]; every other string is taken to be no URL. *)
Definition demoTable (k : string) : option path :=
  if String.eqb k stdHost
  then Some ["vendor"; "https"; "deno.land"; "std"]%string
  else if String.eqb k "https://deno.land/std/"
  then Some ["vendor"; "https"; "deno.land"; "std"]%string
  else if String.eqb k xHost
  then Some ["vendor"; "https"; "deno.land"; "x"]%string
  else None.

Definition demoDir (k : string) : option path :=
  if hasColon k then demoTable k else None.

Definition demoDir_scheme (k : string) (H : hasColon k = false)
  : demoDir k = None :=
  @eq_ind_r bool false
    (fun b : bool => (if b then demoTable k else None) = None)
    eq_refl (hasColon k) H.

(** Module names of one segment, and a server that has [/a.ts] of [std] and
    nothing else. *)
Definition demo : Platform :=
  {| url_dir := demoDir;
     join dir i := dir ++ [unslash i];
     fetch u :=
       if String.eqb u "https://deno.land/std@v0.3.2/a.ts"
       then Some (okResponse u) else Some (notFound u);
     url_scheme := demoDir_scheme |}.

Definition stdEntry : string * Module :=
  (stdHost, {| version := "@v0.3.2"; modules := ["/a.ts"%string] |}).
(** [std] once more, under the key with a trailing slash. *)
Definition slashEntry : string * Module :=
  ("https://deno.land/std/"%string,
   {| version := "@v0.3.2"; modules := ["/a.ts"%string] |}).
Definition xEntry : string * Module :=
  (xHost, {| version := "@v1.0.0"; modules := ["/b.ts"%string] |}).

Definition stdDir : path := ["vendor"; "https"; "deno.land"; "std"]%string.
Definition stdFile : path := stdDir ++ ["a.ts"%string].

(** A working directory that holds only the lock file [{}]. *)
Definition freshWorld : World :=
  {| files := {[ lockPath := File (Doc (JObj [])) ]}; net := [] |}.

(** No lock file, nothing vendored. *)
Definition emptyWorld : World := {| files := ∅; net := [] |}.

(** [std/a.ts] vendored and recorded in the lock file. *)
Definition vendoredWorld : World :=
  {| files :=
       <[ stdFile := File (Text (linkText "https://deno.land/std@v0.3.2/a.ts" EmptyString)) ]>
       (<[ stdDir := Dir ]>
       (<[ ["vendor"; "https"; "deno.land"]%string := Dir ]>
       (<[ ["vendor"; "https"]%string := Dir ]>
       (<[ ["vendor"%string] := Dir ]>
       {[ lockPath := File (Doc (toJson [stdEntry])) ]}))));
     net := [] |}.

(** The same hosts behind a server that announces 10000001 bytes. *)
Definition oversized : Platform :=
  {| url_dir := url_dir (Platform := demo);
     join := join (Platform := demo);
     fetch u := Some {| status := 200;
                        contentLengthHeader := Some "10000001"%string;
                        url := u; body := "export default 1" |};
     url_scheme := demoDir_scheme |}.

(** The same hosts behind a server that sends no [content-length]. *)
Definition unsized : Platform :=
  {| url_dir := url_dir (Platform := demo);
     join := join (Platform := demo);
     fetch u := Some {| status := 200; contentLengthHeader := None;
                        url := u; body := "export default 1" |};
     url_scheme := demoDir_scheme |}.

(** A lock file that the validator rejects: an entry with no [version]. *)
Definition brokenLockWorld : World :=
  {| files := {[ lockPath := File (Doc (JObj [(stdHost, JObj [])])) ]};
     net := [] |}.

(** A lock file whose host is no URL. *)
Definition strayEntry : string * Module :=
  ("deno.land/std"%string, {| version := "@v0.3.2"; modules := [] |}).

Definition strayLockWorld : World :=
  {| files := {[ lockPath := File (Doc (toJson [strayEntry])) ]}; net := [] |}.

(** The lock file [{}] and a manifest with a host named [hasOwnProperty]. *)
Definition shadowedManifestWorld : World :=
  {| files := <[ manifestPath :=
                   File (Doc (JObj [("hasOwnProperty"%string,
                                     moduleToJson (snd stdEntry))])) ]>
              {[ lockPath := File (Doc (JObj [])) ]};
     net := [] |}.

(** No flag, the manifest at its usual place. *)
Definition plainArgs : Args :=
  {| flagV := false; flagVer := false; flagH := false; flagHelp := false;
     flagF := None |}.

(** The lock file [{}] and the manifest of [stdEntry]. *)
Definition projectWorld : World :=
  {| files := <[ manifestPath := File (Doc (toJson [stdEntry])) ]>
              {[ lockPath := File (Doc (JObj [])) ]};
     net := [] |}.

(** The lock file [{}] and a manifest that is the JSON number 5. *)
Definition badManifestWorld : World :=
  {| files := <[ manifestPath := File (Doc (JNum "5")) ]>
              {[ lockPath := File (Doc (JObj [])) ]};
     net := [] |}.

(** ** Vocabulary of the statements *)

(** Some proper ancestor of the entries of [d], or [d] itself, is a file. *)
Definition fileInWay (fs : gmap path node) (d : path) : bool :=
  existsb (fun k => match fs !! take k d with
                    | Some (File _) => true
                    | _ => false
                    end)
          (seq 1 (length d)).

Definition isDigit (c : ascii) : bool :=
  let n := Z.of_nat (nat_of_ascii c) in (48 <=? n) && (n <=? 57).

Fixpoint allDigits (s : string) : bool :=
  match s with
  | EmptyString => true
  | String c r => isDigit c && allDigits r
  end.

(** The number a string of decimal digits denotes, after [acc]. *)
Fixpoint decimalFrom (acc : Z) (s : string) : Z :=
  match s with
  | EmptyString => acc
  | String c r => decimalFrom (10 * acc + (Z.of_nat (nat_of_ascii c) - 48)) r
  end.

Definition decimalValue (s : string) : Z := decimalFrom 0 s.

(** Every entry sits in a directory, and the working directory is no entry. *)
Definition wellFormed (fs : gmap path node) : Prop :=
  forall p, is_Some (fs !! p) -> p <> [] /\ isDir fs (dirname p) = true.

(** Everything at or below [q] lies on the way to [p]. *)
Definition lonely (fs : gmap path node) (p q : path) : Prop :=
  forall r, is_Some (fs !! r) -> q `prefix_of` r -> r `prefix_of` p.

(** The state of the cleanup walk for the removed file [p] when it looks at
    the ancestor of length [n]: the entries of [fs] on the way to [p] below
    that ancestor were lonely and are gone, everything else is as in [fs]. *)
Definition walkedTo (fs : gmap path node) (p : path) (n : nat)
  (cur : gmap path node) : Prop :=
  (forall m, (n < m <= length p)%nat ->
     cur !! take m p = None /\ lonely fs p (take m p))
  /\ (forall q, (forall m, (n < m <= length p)%nat -> q <> take m p) ->
        cur !! q = fs !! q).

(** The state after the walk: exactly the lonely entries on the way to [p]
    are gone. *)
Definition cleaned (fs : gmap path node) (p : path) (cur : gmap path node)
  : Prop :=
  forall q,
    (q `prefix_of` p /\ lonely fs p q -> cur !! q = None)
    /\ (~ (q `prefix_of` p /\ lonely fs p q) -> cur !! q = fs !! q).

(** An entry of the shape [{version: string, modules: string[]}], other
    properties allowed. *)
Definition shaped (m : json) : Prop :=
  exists props v ms,
    m = JObj props
    /\ assoc "version" props = Some (JStr v)
    /\ assoc "modules" props = Some (JArr (map JStr ms)).

(** The four messages of the validator. *)
Definition validatorMessages : list string :=
  [msgNotObject; msgVersion; msgModules; msgContent].

(** What [readLockFile] makes of the entry at the lock path. *)
Definition lockOutcome (n : option node) : result (option Modules) :=
  match n with
  | None => Ok None
  | Some Dir => Err (IOError "readFile" lockPath)
  | Some (File c) =>
      match JSON_parse c with
      | Err e => Err e
      | Ok j =>
          match isDinkModules j [] with
          | Err e => Err e
          | Ok (true, _) => Ok (asModules j)
          | Ok (false, errors) => Err (LockFormat errors)
          end
      end
  end.

(** A check of [wellFormed] that computes. *)
Definition wellFormedb (fs : gmap path node) : bool :=
  forallb (fun p => match p with
                    | [] => false
                    | _ => isDir fs (dirname p)
                    end)
          (map fst (map_to_list fs)).

(** Every run of [m] relates the world before to the world after, whatever
    the outcome. *)
Definition respects {A : Type} (R : World -> World -> Prop) (m : IO A) : Prop :=
  forall w r w', m w = (r, w') -> R w w'.

(** [w'] has the network log of [w] and no entry that [w] has not. *)
Definition shrinks (w w' : World) : Prop :=
  net w' = net w /\
  forall p, files w' !! p = None \/ files w' !! p = files w !! p.

(** [m] never ends because the bound on the turns of a loop was reached. *)
Definition fuelled {A : Type} (m : IO A) : Prop :=
  forall w, fst (m w) <> Err OutOfFuel.

(** The manifest file that [main] reads. *)
Definition manifestOf (args : Args) : path :=
  match flagF args with
  | Some p => p
  | None => manifestPath
  end.

(** None of the version and help flags is set. *)
Definition noFlag (args : Args) : Prop :=
  flagV args = false /\ flagVer args = false
  /\ flagH args = false /\ flagHelp args = false.

(** The network log of [w'] is that of [w] with later events added. *)
Definition logs (w w' : World) : Prop :=
  exists later, net w' = later ++ net w.

(** Every path present in [w] is present in [w']. *)
Definition grows (w w' : World) : Prop :=
  forall p, present (files w) p = true -> present (files w') p = true.

(** The manifest with every version replaced by [f] of its host. *)
Definition reversion (f : string -> string) (mods : Modules) : Modules :=
  map (fun kv => (fst kv, {| version := f (fst kv); modules := modules (snd kv) |}))
      mods.

(** ** The validator *)

Lemma isDinkModules_scalar (x : json) (errors : list string) :
  typeof (Some x) <> TObject ->
  isDinkModules x errors = Ok (false, errors ++ [msgNotObject]).
Proof.
  unfold isDinkModules. destruct (typeof (Some x)); congruence.
Qed.

Lemma isDinkModules_empty_object (errors : list string) :
  isDinkModules (JObj []) errors = Ok (true, errors).
Proof. reflexivity. Qed.

Lemma checkEntry_moduleToJson (m : Module) (errors : list string) :
  checkEntry (moduleToJson m) errors = Ok (true, errors).
Proof.
  unfold checkEntry, moduleToJson. simpl.
  replace (forallb isStr (map JStr (modules m))) with true; [done|].
  symmetry. apply forallb_forall. intros x Hx.
  apply in_map_iff in Hx as (s & <- & _). reflexivity.
Qed.

Lemma assoc_map_snd {A B : Type} (f : A -> B) (k : string)
  (l : list (string * A)) :
  assoc k (map (fun kv => (fst kv, f (snd kv))) l) = f <$> assoc k l.
Proof.
  induction l as [|[k' a] l IH]; simpl; [done|].
  by destruct (String.eqb k k').
Qed.

Lemma ownsHasOwnProperty_toJson (mods : Modules) :
  ownsHasOwnProperty (toJson mods)
  = match assoc "hasOwnProperty" mods with Some _ => true | None => false end.
Proof.
  unfold ownsHasOwnProperty, toJson. rewrite assoc_map_snd.
  by destruct (assoc "hasOwnProperty" mods).
Qed.

Lemma isDinkModules_toJson (mods : Modules) :
  assoc "hasOwnProperty" mods = None ->
  isDinkModules (toJson mods) [] = Ok (true, []).
Proof.
  intros Hown. unfold isDinkModules.
  rewrite ownsHasOwnProperty_toJson, Hown.
  unfold toJson. simpl. clear Hown.
  induction mods as [|[k m] rest IH]; simpl; [done|].
  by rewrite checkEntry_moduleToJson.
Qed.

(** The validator throws on the JSON of a manifest that has a host named
    [hasOwnProperty]. *)
Lemma isDinkModules_toJson_shadowed (mods : Modules) (errors : list string) :
  assoc "hasOwnProperty" mods <> None ->
  isDinkModules (toJson mods) errors = Err TypeError.
Proof.
  intros Hown. unfold isDinkModules.
  rewrite ownsHasOwnProperty_toJson.
  by destruct (assoc "hasOwnProperty" mods).
Qed.

Lemma asModule_moduleToJson (m : Module) : asModule (moduleToJson m) = m.
Proof.
  destruct m as [v ms]. unfold asModule, moduleToJson. simpl. f_equal.
  induction ms as [|x r IH]; simpl; [done|]. by rewrite IH.
Qed.

Lemma asModules_toJson (mods : Modules) : asModules (toJson mods) = Some mods.
Proof.
  unfold asModules, toJson. simpl. f_equal.
  induction mods as [|[k m] rest IH]; simpl; [done|].
  by rewrite asModule_moduleToJson, IH.
Qed.

(** C7.  The validator does not reject every top-level value that is not an
    object: [null], the empty array and an array of well-shaped entries pass
    with no error recorded, because [typeof] answers ["object"] for them. *)
Theorem isDinkModules_accepts_null_and_arrays :
  isDinkModules JNull [] = Ok (true, [])
  /\ isDinkModules (JArr []) [] = Ok (true, [])
  /\ isDinkModules (JArr [moduleToJson (snd stdEntry)]) [] = Ok (true, []).
Proof. repeat split. Qed.

(** The scan stops at the first entry that is not accepted. *)
Lemma checkEntries_stops (good rest : list (string * json)) (k : string)
  (m : json) (errors : list string) :
  Forall (fun kv => forall e, checkEntry (snd kv) e = Ok (true, e)) good ->
  (forall e, checkEntry m errors <> Ok (true, e)) ->
  checkEntries (good ++ (k, m) :: rest) errors = checkEntry m errors.
Proof.
  intros Hgood Hbad. induction Hgood as [|[k0 m0] good H0 _ IH]; simpl.
  - destruct (checkEntry m errors) as [[[] e]|]; [|done..].
    by destruct (Hbad e).
  - simpl in H0. by rewrite H0.
Qed.

Lemma isDinkModules_null_entry (k : string) (errors : list string) :
  isDinkModules (JObj [(k, JNull)]) errors = Err TypeError.
Proof.
  unfold isDinkModules, ownsHasOwnProperty. cbn [typeof forInOwn assoc].
  by destruct (String.eqb "hasOwnProperty" k).
Qed.

(** ** The monad *)

Lemma bind_ok {A B : Type} (m : IO A) (k : A -> IO B) w a w1 :
  m w = (Ok a, w1) -> bind m k w = k a w1.
Proof. unfold bind. by intros ->. Qed.

Lemma bind_err {A B : Type} (m : IO A) (k : A -> IO B) w e w1 :
  m w = (Err e, w1) -> bind m k w = (Err e, w1).
Proof. unfold bind. by intros ->. Qed.

Lemma bind_inv {A B : Type} (m : IO A) (k : A -> IO B) w r w' :
  bind m k w = (r, w') ->
  (exists a w1, m w = (Ok a, w1) /\ k a w1 = (r, w'))
  \/ (exists e, m w = (Err e, w') /\ r = Err e).
Proof.
  unfold bind. destruct (m w) as [[a|e] w1]; intros H.
  - left. eauto.
  - right. exists e. by inversion H.
Qed.

Lemma bind_inv_ok {A B : Type} (m : IO A) (k : A -> IO B) w b w' :
  bind m k w = (Ok b, w') ->
  exists a w1, m w = (Ok a, w1) /\ k a w1 = (Ok b, w').
Proof.
  intros H. apply bind_inv in H as [H|(e & _ & H)]; [done|discriminate].
Qed.

(** A relation that every step respects holds across the whole loop,
    whatever its outcome. *)
Lemma forEach_rel {A : Type} (R : World -> World -> Prop) (f : A -> IO unit) :
  (forall w, R w w) ->
  (forall w1 w2 w3, R w1 w2 -> R w2 w3 -> R w1 w3) ->
  forall l : list A,
  (forall x w r w', x ∈ l -> f x w = (r, w') -> R w w') ->
  forall w r w', forEach f l w = (r, w') -> R w w'.
Proof.
  intros Hrefl Htrans l. induction l as [|x l IH]; intros Hstep w r w' H.
  - inversion H. apply Hrefl.
  - simpl in H. apply bind_inv in H as [(a & w1 & Hx & Hl)|(e & Hx & _)].
    + eapply Htrans.
      * eapply Hstep; [left|exact Hx].
      * eapply IH; [|exact Hl]. intros y ? ? ? Hy. apply Hstep. by right.
    + eapply Hstep; [left|exact Hx].
Qed.

(** What a successful step establishes for its element, and later steps
    keep, holds for every element after a successful loop. *)
Lemma forEach_each {A : Type} (Q : A -> World -> Prop) (f : A -> IO unit)
  (l : list A) :
  (forall x w w', x ∈ l -> f x w = (Ok tt, w') -> Q x w') ->
  (forall x y w r w', y ∈ l -> Q x w -> f y w = (r, w') -> Q x w') ->
  forall w w', forEach f l w = (Ok tt, w') -> forall x, x ∈ l -> Q x w'.
Proof.
  intros Hest Hkeep w w' H.
  assert (Hstable : forall l0 : list A, (forall y, y ∈ l0 -> y ∈ l) ->
            forall x v r v', Q x v -> forEach f l0 v = (r, v') -> Q x v').
  { intros l0. induction l0 as [|y l0 IH]; intros Hsub x v r v' Hq Hrun.
    - by inversion Hrun; subst.
    - simpl in Hrun. apply bind_inv in Hrun as [(a & v1 & Hy & Hl)|(e & Hy & _)].
      + eapply IH; [| |exact Hl].
        * intros z Hz. apply Hsub. by right.
        * eapply Hkeep; [|exact Hq|exact Hy]. apply Hsub. left.
      + eapply Hkeep; [|exact Hq|exact Hy]. apply Hsub. left. }
  assert (Hgen : forall l0 : list A, (forall y, y ∈ l0 -> y ∈ l) ->
            forall v v', forEach f l0 v = (Ok tt, v') ->
            forall x, x ∈ l0 -> Q x v').
  { intros l0. induction l0 as [|y l0 IH]; intros Hsub v v' Hrun x Hx.
    - by apply elem_of_nil in Hx.
    - simpl in Hrun. apply bind_inv_ok in Hrun as (a & v1 & Hy & Hl).
      destruct a. apply elem_of_cons in Hx as [->|Hx].
      + eapply Hstable; [|eapply Hest; [|exact Hy]|exact Hl].
        * intros z Hz. apply Hsub. by right.
        * apply Hsub. left.
      + eapply IH; [|exact Hl|exact Hx]. intros z Hz. apply Hsub. by right. }
  intros x Hx. eapply Hgen; [|exact H|exact Hx]. auto.
Qed.

(** What every successful step establishes holds after a successful loop
    over a list that is not empty. *)
Lemma forEach_last {A : Type} (R : World -> Prop) (f : A -> IO unit)
  (l : list A) :
  (forall x w w', f x w = (Ok tt, w') -> R w') ->
  l <> [] ->
  forall w w', forEach f l w = (Ok tt, w') -> R w'.
Proof.
  intros Hest. induction l as [|x l IH]; intros Hne w w' H; [done|].
  simpl in H. apply bind_inv_ok in H as (a & w1 & Hx & Hl). destruct a.
  destruct l as [|y l].
  - inversion Hl; subst. by eapply Hest.
  - eapply IH; [done|exact Hl].
Qed.

(** Steps that succeed without changing the world make the loop do so. *)
Lemma forEach_noop {A : Type} (f : A -> IO unit) (l : list A) (w : World) :
  (forall x, x ∈ l -> f x w = (Ok tt, w)) -> forEach f l w = (Ok tt, w).
Proof.
  induction l as [|x l IH]; intros H; [done|].
  simpl. erewrite bind_ok; [|apply H; left]. apply IH.
  intros y Hy. apply H. by right.
Qed.

(** ** The lock file across a run *)

Lemma readLockFile_absent {P : Platform} (w : World) :
  files w !! lockPath = None -> readLockFile w = (Ok None, w).
Proof.
  intros Hnone. unfold readLockFile.
  rewrite (bind_ok _ _ w false w); [done|].
  unfold fs_exists, present, lockPath in *. by rewrite Hnone.
Qed.

(** C3.  With no lock file on disk the run does not proceed as a first run:
    [readLockFile] yields [undefined], [Object.entries] throws on it, and
    the run fails before anything is deleted, fetched or written. *)
Theorem ensure_without_lock_file {P : Platform} (mods : Modules) (w : World) :
  files w !! lockPath = None -> ensure mods w = (Err TypeError, w).
Proof.
  intros Hnone. unfold ensure.
  rewrite (bind_ok _ _ w None w) by by apply readLockFile_absent.
  unfold deleteRemovedFiles. by apply bind_err.
Qed.

Lemma ensure_without_lock_file_witness :
  files emptyWorld !! lockPath = None
  /\ ensure (P := demo) [stdEntry] emptyWorld = (Err TypeError, emptyWorld).
Proof.
  split; [reflexivity|].
  apply (ensure_without_lock_file (P := demo) [stdEntry] emptyWorld).
  reflexivity.
Defined.

(** C1.  A run whose second host fails to link has already rewritten the
    lock file: it held [{}] before the run and holds the whole manifest,
    failed host included, after it. *)
Theorem ensure_failed_run_rewrites_lock :
  fst (ensure (P := demo) [stdEntry; xEntry] freshWorld)
    = Err (FetchFailed "https://deno.land/x@v1.0.0/b.ts")
  /\ files freshWorld !! lockPath = Some (File (Doc (JObj [])))
  /\ files (snd (ensure (P := demo) [stdEntry; xEntry] freshWorld)) !! lockPath
    = Some (File (Doc (toJson [stdEntry; xEntry]))).
Proof. vm_compute. repeat split. Qed.

(** C2.  A successful run on the empty manifest leaves the lock file as it
    was: the persisted lock state is the prior one, not the manifest. *)
Theorem ensure_empty_manifest_keeps_lock :
  fst (ensure (P := demo) [] vendoredWorld) = Ok tt
  /\ files (snd (ensure (P := demo) [] vendoredWorld)) !! lockPath
    = Some (File (Doc (toJson [stdEntry])))
  /\ toJson [stdEntry] <> toJson [].
Proof. vm_compute. repeat split. discriminate. Qed.

(** ** The default-export pattern *)

Lemma append_cons (c : ascii) (a b : string) :
  String c a +:+ b = String c (a +:+ b).
Proof. reflexivity. Qed.

Lemma stripPrefix_Some (pre s r : string) :
  stripPrefix pre s = Some r -> s = pre +:+ r.
Proof.
  revert s. induction pre as [|a pre IH]; intros s H; simpl in *.
  - by inversion H.
  - destruct s as [|b s]; [done|].
    destruct (Ascii.eqb_spec a b) as [->|]; [|done].
    by rewrite (IH _ H).
Qed.

Lemma stripPrefix_app (pre r : string) : stripPrefix pre (pre +:+ r) = Some r.
Proof.
  induction pre as [|a pre IH]; simpl; [done|].
  by rewrite Ascii.eqb_refl.
Qed.

Lemma skipSpace_split (s : string) :
  exists ws, s = ws +:+ skipSpace s /\ allSpace ws = true.
Proof.
  induction s as [|c s (ws & Hs & Hws)]; simpl.
  - by exists EmptyString.
  - destruct (isSpace c) eqn:Hc.
    + exists (String c ws). split.
      * rewrite append_cons. f_equal. exact Hs.
      * simpl. by rewrite Hc, Hws.
    + by exists EmptyString.
Qed.

Lemma skipSpace_app (ws s : string) :
  allSpace ws = true -> skipSpace (ws +:+ s) = skipSpace s.
Proof.
  induction ws as [|c ws IH]; simpl; [done|].
  intros H. apply andb_true_iff in H as [-> H]. by apply IH.
Qed.

Lemma hasDefaultExport_here (code : string) :
  matchHere code = true -> hasDefaultExport code = true.
Proof.
  intros H. destruct code as [|a r].
  - vm_compute in H. discriminate.
  - change (hasDefaultExport (String a r))
      with (matchHere (String a r) || hasDefaultExport r).
    by rewrite H.
Qed.

Lemma hasDefaultExport_pattern (code : string) :
  hasDefaultExport code = true <-> RegexPattern code.
Proof.
  split.
  - induction code as [|a code IH]; simpl.
    + discriminate.
    + intros H. apply orb_true_iff in H as [H|H].
      * unfold matchHere in H.
        destruct (stripPrefix "export" (String a code)) as [r|] eqn:Hr; [|done].
        apply stripPrefix_Some in Hr.
        destruct (skipSpace_split r) as (ws & Hsplit & Hws).
        destruct (stripPrefix "default" (skipSpace r)) as [[|c post]|] eqn:Hd;
          try done.
        apply stripPrefix_Some in Hd.
        exists EmptyString, ws, c, post. repeat split; [|done..].
        rewrite Hr, Hsplit at 1. by rewrite Hd.
      * destruct (IH H) as (pre & ws & c & post & -> & Hws & Hc).
        by exists (String a pre), ws, c, post.
  - intros (pre & ws & c & post & -> & Hws & Hc).
    induction pre as [|a pre IH].
    + apply hasDefaultExport_here.
      { unfold matchHere.
        change (EmptyString +:+ "export" +:+ ws +:+ "default" +:+ String c post)
          with ("export" +:+ (ws +:+ "default" +:+ String c post)).
        rewrite stripPrefix_app, skipSpace_app by done.
        change (skipSpace ("default" +:+ String c post))
          with ("default" +:+ String c post).
        by rewrite stripPrefix_app. }
    + change (String a pre +:+ "export" +:+ ws +:+ "default" +:+ String c post)
        with (String a (pre +:+ "export" +:+ ws +:+ "default" +:+ String c post)).
      simpl hasDefaultExport. rewrite IH. apply orb_true_r.
Qed.

Lemma length_append (a b : string) :
  String.length (a +:+ b) = (String.length a + String.length b)%nat.
Proof.
  induction a as [|c a IH]; [done|]. rewrite append_cons. simpl. by rewrite IH.
Qed.

(** C8, as the code has it.  The shim is the wildcard line followed by the
    two lines of the default re-export exactly when the source contains
    [export], zero or more spaces, [default] and one space; otherwise it is
    the wildcard line alone. *)
Theorem linkText_by_pattern (u code : string) :
  (RegexPattern code /\ linkText u code = wildcardLine u +:+ defaultLines u)
  \/ (~ RegexPattern code /\ linkText u code = wildcardLine u).
Proof.
  unfold linkText. destruct (hasDefaultExport code) eqn:H.
  - left. split; [by apply hasDefaultExport_pattern|done].
  - right. split; [|done]. intros Hp. apply hasDefaultExport_pattern in Hp.
    congruence.
Qed.

(** C8, as stated, fails: a source with [export] and [default] glued
    together has no whitespace between the two tokens, and its shim still
    carries the default re-export. *)
Lemma linkText_glued_tokens :
  ~ SpecPattern "exportdefault "
  /\ linkText "u" "exportdefault " <> wildcardLine "u".
Proof.
  split.
  - intros (pre & ws & c & post & Heq & Hne & _ & _).
    apply (f_equal String.length) in Heq.
    rewrite !length_append in Heq. simpl in Heq.
    destruct ws as [|x ws]; [done|]. simpl in Heq. lia.
  - vm_compute. discriminate.
Qed.

(** ** The size guard *)

Lemma digit_facts (c : ascii) :
  isDigit c = true ->
  isSpace c = false /\ Ascii.eqb c "-" = false /\ Ascii.eqb c "+" = false
  /\ isX c = false
  /\ digitVal c = Some (Z.of_nat (nat_of_ascii c) - 48)
  /\ (Z.of_nat (nat_of_ascii c) - 48 <? 10) = true.
Proof.
  destruct c as [[] [] [] [] [] [] [] []]; vm_compute; intros H;
    try discriminate H; repeat split.
Qed.

Lemma digitsAcc_decimal (s : string) (acc : Z) :
  allDigits s = true -> digitsAcc 10 s (Some acc) = Some (decimalFrom acc s).
Proof.
  revert acc. induction s as [|c s IH]; intros acc H; [done|].
  simpl in H. apply andb_true_iff in H as [Hc Hs].
  cbn [digitsAcc decimalFrom].
  destruct (digit_facts c Hc) as (_ & _ & _ & _ & Hv & Hlt).
  rewrite Hv, Hlt. by apply IH.
Qed.

Lemma parseInt_decimal (s : string) :
  s <> EmptyString -> allDigits s = true -> parseInt s = Some (decimalValue s).
Proof.
  destruct s as [|c r]; [done|]. intros _ H. simpl in H.
  apply andb_true_iff in H as [Hc Hr].
  destruct (digit_facts c Hc) as (Hsp & Hm & Hp & _ & Hv & Hlt).
  assert (Hskip : skipSpace (String c r) = String c r).
  { simpl. by rewrite Hsp. }
  assert (Hsign : splitSign (String c r) = (false, String c r)).
  { unfold splitSign. by rewrite Hm, Hp. }
  assert (Hbase : splitRadix (String c r) = (10, String c r)).
  { unfold splitRadix. destruct r as [|x r0]; [done|]. simpl in Hr.
    apply andb_true_iff in Hr as [Hx _].
    destruct (digit_facts x Hx) as (_ & _ & _ & Hnx & _).
    by rewrite Hnx, andb_false_r. }
  assert (Hdigits : digitsAcc 10 (String c r) None
                    = Some (decimalValue (String c r))).
  { cbn [digitsAcc]. rewrite Hv, Hlt. by apply digitsAcc_decimal. }
  unfold parseInt. rewrite Hskip, Hsign. cbn [fst snd].
  rewrite Hbase. cbn [fst snd]. by rewrite Hdigits.
Qed.

(** C9.  When a fetch is made and the response announces, in decimal
    digits, more than 10000000 bytes, the invocation throws; the world
    afterwards differs from the one before only by the record of the request:
    the body has not been read and no file has been written. *)
Theorem writeLinkFile_oversized {P : Platform} (host ver modName : string)
  (lockFile : option Modules) (dir : path) (resp : Response) (s : string)
  (w : World) :
  url_dir host = Some dir ->
  present (files w) (join dir modName)
    && String.eqb ver (lockedVersionOf host ver lockFile) = false ->
  fetch (host +:+ ver +:+ modName) = Some resp ->
  contentLengthHeader resp = Some s ->
  s <> EmptyString -> allDigits s = true -> 10000000 < decimalValue s ->
  writeLinkFile host ver lockFile modName w
  = (Err (if status resp =? 200 then TooBig (decimalValue s)
          else FetchFailed (host +:+ ver +:+ modName)),
     logEvent (Fetched (host +:+ ver +:+ modName)) w).
Proof.
  intros Hdir Hslow Hfetch Hhdr Hne Hdig Hbig.
  unfold writeLinkFile. rewrite Hdir.
  rewrite (bind_ok _ _ w (present (files w) (join dir modName)) w) by done.
  rewrite Hslow.
  rewrite (bind_ok _ _ w resp (logEvent (Fetched (host +:+ ver +:+ modName)) w)).
  2:{ unfold httpGet. by rewrite Hfetch. }
  destruct (status resp =? 200); simpl negb; cbv iota; [|done].
  rewrite Hhdr.
  assert (Hz : headerOrZero (Some s) = s) by (by destruct s).
  rewrite Hz, parseInt_decimal by done.
  unfold tooBig. apply Z.ltb_lt in Hbig. by rewrite Hbig.
Qed.

Lemma writeLinkFile_oversized_witness :
  fst (writeLinkFile (P := oversized) stdHost "@v0.3.2" (Some []) "/a.ts"
         freshWorld) = Err (TooBig 10000001)
  /\ files (snd (writeLinkFile (P := oversized) stdHost "@v0.3.2" (Some [])
                   "/a.ts" freshWorld)) = files freshWorld.
Proof.
  rewrite (writeLinkFile_oversized (P := oversized) stdHost "@v0.3.2" "/a.ts"
             (Some []) stdDir
             {| status := 200; contentLengthHeader := Some "10000001"%string;
                url := "https://deno.land/std@v0.3.2/a.ts";
                body := "export default 1" |}
             "10000001" freshWorld);
    [split; reflexivity|reflexivity|reflexivity|reflexivity|reflexivity
    |discriminate|reflexivity|reflexivity].
Defined.

(** ** Creating the directory of a shim *)

Lemma mkdirFrom_spec (segs : list string) :
  forall (base : path) (fs : gmap path node),
  (forall k c, (1 <= k <= length segs)%nat ->
     fs !! (base ++ take k segs) <> Some (File c)) ->
  exists fs',
    mkdirFrom base segs fs = Some fs'
    /\ (forall k, (1 <= k <= length segs)%nat ->
          fs' !! (base ++ take k segs) = Some Dir)
    /\ (forall q, (forall k, (1 <= k <= length segs)%nat ->
                     q <> base ++ take k segs) ->
          fs' !! q = fs !! q).
Proof.
  induction segs as [|x rest IH]; intros base fs Hfree.
  - exists fs. simpl. split; [done|]. split; [intros; lia|done].
  - assert (Hshift : forall k, (base ++ [x]) ++ take k rest
                               = base ++ take (S k) (x :: rest)).
    { intros k. by rewrite <- app_assoc. }
    assert (Hhead : base ++ [x] = base ++ take 1 (x :: rest)) by done.
    assert (Hfresh : forall k, (1 <= k <= length rest)%nat ->
                               (base ++ [x]) ++ take k rest <> base ++ [x]).
    { intros k Hk Heq. apply (f_equal length) in Heq.
      rewrite !length_app, length_take in Heq. simpl in Heq. lia. }
    set (fs1 := match fs !! (base ++ [x]) with
                | None => <[base ++ [x] := Dir]> fs
                | _ => fs
                end).
    assert (Hrun : mkdirFrom base (x :: rest) fs
                   = mkdirFrom (base ++ [x]) rest fs1).
    { simpl. subst fs1. destruct (fs !! (base ++ [x])) as [[c|]|] eqn:Hq;
        [|done..].
      exfalso. apply (Hfree 1%nat c); [simpl; lia|]. by rewrite <- Hhead. }
    assert (Hq1 : fs1 !! (base ++ [x]) = Some Dir).
    { subst fs1. destruct (fs !! (base ++ [x])) as [[c|]|] eqn:Hq.
      - exfalso. apply (Hfree 1%nat c); [simpl; lia|]. by rewrite <- Hhead.
      - done.
      - apply lookup_insert_eq. }
    assert (Hother : forall q, q <> base ++ [x] -> fs1 !! q = fs !! q).
    { intros q Hq. subst fs1. destruct (fs !! (base ++ [x])); [done|].
      by apply lookup_insert_ne. }
    destruct (IH (base ++ [x]) fs1) as (fs' & Hmk & Hdirs & Hrest).
    { intros k c Hk. rewrite Hother by by apply Hfresh.
      rewrite Hshift. apply Hfree. simpl. lia. }
    exists fs'. split; [by rewrite Hrun|]. split.
    + intros k Hk. destruct k as [|k]; [lia|]. rewrite <- Hshift.
      destruct k as [|k].
      * simpl. rewrite app_nil_r, Hrest; [done|].
        intros k Hk'. by apply not_eq_sym, Hfresh.
      * apply Hdirs. simpl in Hk. lia.
    + intros q Hq. rewrite Hrest, Hother; [done| |].
      * rewrite Hhead. apply Hq. simpl. lia.
      * intros k Hk. rewrite Hshift. apply Hq. simpl. lia.
Qed.

Lemma fileInWay_false (fs : gmap path node) (d : path) :
  fileInWay fs d = false ->
  forall k c, (1 <= k <= length d)%nat -> fs !! take k d <> Some (File c).
Proof.
  unfold fileInWay. intros H k c Hk Hfile.
  assert (Hex : existsb (fun k => match fs !! take k d with
                                  | Some (File _) => true
                                  | _ => false
                                  end) (seq 1 (length d)) = true).
  { apply existsb_exists. exists k. split; [apply in_seq; lia|].
    by rewrite Hfile. }
  congruence.
Qed.

Lemma mkdir_ok (w : World) (d : path) :
  fileInWay (files w) d = false ->
  exists fs',
    mkdir d w = (Ok tt, setFiles fs' w)
    /\ isDir fs' d = true
    /\ (forall q, (length d < length q)%nat -> fs' !! q = files w !! q).
Proof.
  intros Hway.
  destruct (mkdirFrom_spec d [] (files w)) as (fs' & Hmk & Hdirs & Hrest).
  { intros k c Hk. simpl. by apply fileInWay_false. }
  exists fs'. split; [|split].
  - unfold mkdir. by rewrite Hmk.
  - unfold isDir. destruct d as [|x d]; [done|].
    specialize (Hdirs (length (x :: d))). simpl app in Hdirs.
    rewrite firstn_all in Hdirs. rewrite Hdirs; [done|]. simpl. lia.
  - intros q Hq. apply Hrest. intros k Hk Heq.
    apply (f_equal length) in Heq. simpl in Heq.
    rewrite length_take in Heq. lia.
Qed.

Lemma length_dirname (p : path) : p <> [] -> length p = S (length (dirname p)).
Proof.
  intros Hp. unfold dirname.
  rewrite (app_removelast_last EmptyString Hp) at 1.
  rewrite length_app. simpl. lia.
Qed.

(** C10.  When a fetch is made, the response is a 200 and its
    [content-length] is absent, empty or not numeric, the guard lets it
    through whatever the length of the body: the body is read and, the
    directory being creatable and the target not a directory, the shim built
    from that body is what the target file holds afterwards. *)
Theorem writeLinkFile_unsized {P : Platform} (host ver modName : string)
  (lockFile : option Modules) (dir : path) (resp : Response) (w : World) :
  url_dir host = Some dir ->
  present (files w) (join dir modName)
    && String.eqb ver (lockedVersionOf host ver lockFile) = false ->
  fetch (host +:+ ver +:+ modName) = Some resp ->
  status resp = 200 ->
  (contentLengthHeader resp = None
   \/ exists s, contentLengthHeader resp = Some s /\ parseInt s = None) ->
  join dir modName <> [] ->
  files w !! join dir modName <> Some Dir ->
  fileInWay (files w) (dirname (join dir modName)) = false ->
  (parseInt (headerOrZero (contentLengthHeader resp)) = Some 0
   \/ parseInt (headerOrZero (contentLengthHeader resp)) = None)
  /\ exists fs',
      writeLinkFile host ver lockFile modName w
      = (Ok tt,
         {| files := fs';
            net := BodyRead (host +:+ ver +:+ modName)
                   :: Fetched (host +:+ ver +:+ modName) :: net w |})
      /\ fs' !! join dir modName
         = Some (File (Text (linkText (url resp) (body resp)))).
Proof.
  intros Hdir Hslow Hfetch Hstatus Hhdr Hne Hnotdir Hway.
  set (specifier := host +:+ ver +:+ modName) in *.
  set (modFile := join dir modName) in *.
  assert (Hdeclared :
            parseInt (headerOrZero (contentLengthHeader resp)) = Some 0
            \/ parseInt (headerOrZero (contentLengthHeader resp)) = None).
  { destruct Hhdr as [->|(s & -> & Hnan)]; [by left|].
    destruct s as [|c s]; [by left|]. right. exact Hnan. }
  split; [exact Hdeclared|].
  assert (Hguard : tooBig (parseInt (headerOrZero (contentLengthHeader resp)))
                   = false).
  { by destruct Hdeclared as [-> | ->]. }
  set (w1 := logEvent (Fetched specifier) w).
  set (w2 := logEvent (BodyRead specifier) w1).
  destruct (mkdir_ok w2 (dirname modFile) Hway) as (fs1 & Hmk & Hisdir & Hkeep).
  exists (<[modFile := File (Text (linkText (url resp) (body resp)))]> fs1).
  split; [|apply lookup_insert_eq].
  unfold writeLinkFile. rewrite Hdir. fold modFile. fold specifier.
  rewrite (bind_ok _ _ w (present (files w) modFile) w) by done.
  rewrite Hslow.
  rewrite (bind_ok _ _ w resp w1) by (unfold httpGet; by rewrite Hfetch).
  rewrite Hstatus. change (negb (200 =? 200)) with false. cbv iota.
  rewrite Hguard.
  rewrite (bind_ok _ _ w1 (body resp) w2) by done.
  rewrite (bind_ok _ _ _ _ _ Hmk).
  unfold writeFile. destruct modFile as [|x rest] eqn:Hmod; [done|].
  rewrite <- Hmod in *. simpl files.
  rewrite Hkeep by (rewrite (length_dirname modFile); [lia|by rewrite Hmod]).
  rewrite Hisdir.
  change (files w2 !! modFile) with (files w !! modFile).
  destruct (files w !! modFile) as [[c|]|] eqn:Hlook; done.
Qed.

Lemma writeLinkFile_unsized_witness :
  exists fs',
    writeLinkFile (P := unsized) stdHost "@v0.3.2" (Some []) "/a.ts" freshWorld
    = (Ok tt,
       {| files := fs';
          net := [BodyRead "https://deno.land/std@v0.3.2/a.ts";
                  Fetched "https://deno.land/std@v0.3.2/a.ts"] |})
    /\ fs' !! stdFile
       = Some (File (Text (linkText "https://deno.land/std@v0.3.2/a.ts"
                                    "export default 1"))).
Proof.
  apply (proj2 (writeLinkFile_unsized (P := unsized) stdHost "@v0.3.2" "/a.ts"
           (Some []) stdDir
           {| status := 200; contentLengthHeader := None;
              url := "https://deno.land/std@v0.3.2/a.ts";
              body := "export default 1" |} freshWorld
           eq_refl eq_refl eq_refl eq_refl (or_introl eq_refl)
           ltac:(discriminate) ltac:(discriminate) eq_refl)).
Defined.

(** ** The paths marked by the pruner *)

Section Pruner.
Context {P : Platform}.

Lemma elem_of_setFrom (l : list string) (i : string) : i ∈ setFrom l <-> i ∈ l.
Proof.
  induction l as [|x l IH]; simpl; [done|].
  rewrite !elem_of_cons, list_elem_of_filter, IH.
  destruct (decide (i = x)) as [->|Hne]; [tauto|].
  split; [intros [?|[_ ?]]; auto|intros [?|?]; auto].
Qed.

Lemma elem_of_setDelete_all (d s : list string) (i : string) :
  i ∈ foldl setDelete s d <-> i ∈ s /\ i ∉ d.
Proof.
  revert s. induction d as [|x d IH]; intros s; simpl.
  - split; [|tauto]. intros H. split; [done|]. apply not_elem_of_nil.
  - rewrite IH. unfold setDelete. rewrite list_elem_of_filter, not_elem_of_cons.
    tauto.
Qed.

Lemma removedOf_elem (mods : Modules) (k : string) (v : Module) (dir p : path) :
  p ∈ removedOf mods k v dir <->
  exists i, i ∈ modules v /\ p = join dir i
            /\ (assoc k mods = None
                \/ exists m, assoc k mods = Some m /\ i ∉ modules m).
Proof.
  unfold removedOf. destruct (assoc k mods) as [m|].
  - change (map (join dir)) with (fmap (M := list) (join dir)).
    rewrite list_elem_of_fmap. split.
    + intros (i & Hp & Hi). apply elem_of_setDelete_all in Hi as [Hi Hm].
      rewrite elem_of_setFrom in Hi. exists i. split; [done|]. split; [done|].
      right. by exists m.
    + intros (i & Hi & Hp & [Hnone|(m' & Hm' & Hni)]); [done|].
      injection Hm' as <-.
      exists i. split; [done|]. apply elem_of_setDelete_all.
      by rewrite elem_of_setFrom.
  - change (map (join dir)) with (fmap (M := list) (join dir)).
    rewrite list_elem_of_fmap. split.
    + intros (i & Hp & Hi). exists i. auto.
    + intros (i & Hi & Hp & _). by exists i.
Qed.

Lemma removedOf_kept (mods : Modules) (k : string) (v m : Module) (dir : path) :
  assoc k mods = Some m ->
  (forall i, i ∈ modules v -> i ∈ modules m) ->
  removedOf mods k v dir = [].
Proof.
  intros Hm Hsub. apply elem_of_nil_inv. intros p Hp.
  apply removedOf_elem in Hp as (i & Hi & _ & [Hnone|(m' & Hm' & Hni)]).
  - congruence.
  - rewrite Hm in Hm'. injection Hm' as <-. by apply Hni, Hsub.
Qed.

Lemma assoc_reversion (f : string -> string) (mods : Modules) (k : string) :
  assoc k (reversion f mods)
  = (fun m => {| version := f k; modules := modules m |}) <$> assoc k mods.
Proof.
  induction mods as [|[k' m] rest IH]; simpl; [done|].
  destruct (String.eqb_spec k k') as [->|]; [done|]. exact IH.
Qed.

Lemma removedOf_reversion (f : string -> string) (mods : Modules)
  (k x : string) (v : Module) (dir : path) :
  removedOf (reversion f mods) k {| version := x; modules := modules v |} dir
  = removedOf mods k v dir.
Proof.
  unfold removedOf. rewrite assoc_reversion.
  by destruct (assoc k mods).
Qed.

Lemma removedFiles_reversion (f g : string -> string) (mods lock : Modules) :
  removedFiles (reversion f mods) (reversion g lock) = removedFiles mods lock.
Proof.
  induction lock as [|[k v] rest IH]; simpl; [done|].
  destruct (url_dir k) as [dir|]; [|done].
  fold (reversion g rest). by rewrite IH, removedOf_reversion.
Qed.

Lemma removedFiles_elem (mods lock : Modules) (l : list path) :
  removedFiles mods lock = Ok l ->
  forall p,
    p ∈ l <->
    exists k v dir i,
      (k, v) ∈ lock /\ url_dir k = Some dir /\ i ∈ modules v
      /\ p = join dir i
      /\ (assoc k mods = None
          \/ exists m, assoc k mods = Some m /\ i ∉ modules m).
Proof.
  revert l. induction lock as [|[k0 v0] rest IH]; intros l H p; simpl in H.
  - injection H as <-. split; [by intros ?%elem_of_nil|].
    by intros (k & v & dir & i & ?%elem_of_nil & _).
  - destruct (url_dir k0) as [dir0|] eqn:Hdir; [|done].
    destruct (removedFiles mods rest) as [l'|] eqn:Hrest; [|done].
    injection H as <-. rewrite elem_of_app, removedOf_elem, (IH l' eq_refl).
    split.
    + intros [(i & Hi & -> & Hm)|(k & v & dir & i & Hin & Hrest')].
      * exists k0, v0, dir0, i. split; [left|done].
      * exists k, v, dir, i. split; [by right|done].
    + intros (k & v & dir & i & Hin & Hd & Hi & -> & Hm).
      apply elem_of_cons in Hin as [[= -> ->]|Hin].
      * left. exists i. rewrite Hdir in Hd. injection Hd as <-. done.
      * right. by exists k, v, dir, i.
Qed.

Lemma removedFiles_total (mods lock : Modules) :
  Forall (fun kv => is_Some (url_dir (fst kv))) lock ->
  exists l, removedFiles mods lock = Ok l.
Proof.
  induction 1 as [|[k v] rest [dir Hdir] _ [l IH]]; simpl; [by eexists|].
  simpl in Hdir. rewrite Hdir, IH. by eexists.
Qed.

End Pruner.

(** C5.  When every host of the lock state is a URL, the pruner marks
    exactly the paths of the recorded modules whose host is absent from the
    manifest or whose name is absent from the manifest's list for that host.
    Replacing version strings, in the manifest or in the lock state, changes
    nothing, and a host whose module list is the same in both contributes
    no path. *)
Theorem removedFiles_exact {P : Platform} (mods lock : Modules) :
  Forall (fun kv => is_Some (url_dir (fst kv))) lock ->
  exists l,
    removedFiles mods lock = Ok l
    /\ (forall p,
          p ∈ l <->
          exists k v dir i,
            (k, v) ∈ lock /\ url_dir k = Some dir /\ i ∈ modules v
            /\ p = join dir i
            /\ (assoc k mods = None
                \/ exists m, assoc k mods = Some m /\ i ∉ modules m))
    /\ (forall f g, removedFiles (reversion f mods) (reversion g lock) = Ok l)
    /\ (forall k v m dir,
          (k, v) ∈ lock -> assoc k mods = Some m -> modules m = modules v ->
          removedOf mods k v dir = []).
Proof.
  intros Hurls. destruct (removedFiles_total mods lock Hurls) as [l Hl].
  exists l. split; [done|]. split; [by apply removedFiles_elem|]. split.
  - intros f g. by rewrite removedFiles_reversion.
  - intros k v m dir _ Hm Heq. apply (removedOf_kept _ _ _ m); [done|].
    intros i. by rewrite Heq.
Qed.

(** C5, as stated, fails in its last clause: when two hosts of the lock
    state resolve to one directory and the manifest keeps one of them
    unchanged and drops the other, the file of the kept host is marked. *)
Lemma removedFiles_marks_shared_file :
  removedFiles (P := demo) [stdEntry] [stdEntry; slashEntry] = Ok [stdFile]
  /\ assoc stdHost [stdEntry; slashEntry] = Some (snd stdEntry)
  /\ assoc stdHost [stdEntry] = Some (snd stdEntry)
  /\ "/a.ts"%string ∈ modules (snd stdEntry)
  /\ url_dir (Platform := demo) stdHost = Some stdDir
  /\ join (Platform := demo) stdDir "/a.ts" = stdFile.
Proof. repeat split. left. Qed.

Lemma removedFiles_exact_witness :
  exists l,
    removedFiles (P := demo) [xEntry] [stdEntry; xEntry] = Ok l
    /\ (forall p,
          p ∈ l <->
          exists k v dir i,
            (k, v) ∈ [stdEntry; xEntry]
            /\ url_dir (Platform := demo) k = Some dir /\ i ∈ modules v
            /\ p = join (Platform := demo) dir i
            /\ (assoc k [xEntry] = None
                \/ exists m, assoc k [xEntry] = Some m /\ i ∉ modules m))
    /\ (forall f g,
          removedFiles (P := demo) (reversion f [xEntry])
            (reversion g [stdEntry; xEntry]) = Ok l)
    /\ (forall k v m dir,
          (k, v) ∈ [stdEntry; xEntry] -> assoc k [xEntry] = Some m ->
          modules m = modules v ->
          removedOf (P := demo) [xEntry] k v dir = []).
Proof.
  apply (removedFiles_exact (P := demo) [xEntry] [stdEntry; xEntry]).
  constructor; [by eexists|]. constructor; [by eexists|]. constructor.
Defined.

(** ** The directory cleanup *)

Lemma elem_of_entries (fs : gmap path node) (d r : path) :
  r ∈ entries fs d <-> is_Some (fs !! r) /\ r <> [] /\ dirname r = d.
Proof.
  unfold entries. rewrite list_elem_of_filter.
  change (map fst (map_to_list fs)) with (fmap (M := list) fst (map_to_list fs)).
  rewrite list_elem_of_fmap. split.
  - intros [Hp ([r' x] & -> & Hin)]. apply elem_of_map_to_list in Hin.
    split; [by exists x|done].
  - intros [[x Hx] Hp]. split; [done|]. exists (r, x). split; [done|].
    by apply elem_of_map_to_list.
Qed.

Lemma prefix_is_take (q p : path) : q `prefix_of` p -> q = take (length q) p.
Proof. intros [k ->]. by rewrite take_app_length. Qed.

Lemma dirname_take (n : nat) (p : path) :
  (n < length p)%nat -> dirname (take (S n) p) = take n p.
Proof. intros H. by apply removelast_firstn. Qed.

Lemma dirname_is_take (r : path) : dirname r = take (pred (length r)) r.
Proof. apply removelast_firstn_len. Qed.

Lemma take_of_prefix (n : nat) (q r : path) :
  q `prefix_of` r -> (n <= length q)%nat -> take n r = take n q.
Proof. intros [k ->] H. by apply take_app_le. Qed.

(** In a well-formed tree every proper ancestor of an entry is a directory. *)
Lemma wellFormed_ancestor (fs : gmap path node) :
  wellFormed fs ->
  forall (k : nat) (r : path),
    length r = k -> is_Some (fs !! r) ->
    forall n, (0 < n < length r)%nat -> fs !! take n r = Some Dir.
Proof.
  intros Hwf k. induction k as [k IH] using lt_wf_ind.
  intros r Hlen Hr n Hn.
  destruct (Hwf r Hr) as [Hne Hdir].
  assert (Hparent : fs !! dirname r = Some Dir).
  { unfold isDir in Hdir. rewrite dirname_is_take in *.
    destruct (take (pred (length r)) r) as [|x t] eqn:Ht.
    - apply (f_equal length) in Ht. rewrite length_take in Ht. simpl in Ht. lia.
    - by destruct (fs !! (x :: t)) as [[c|]|]. }
  destruct (decide (n = pred (length r))) as [->|Hlt].
  - by rewrite <- dirname_is_take.
  - assert (Htake : take n r = take n (dirname r)).
    { rewrite dirname_is_take, take_take. f_equal. lia. }
    rewrite Htake.
    apply (IH (length (dirname r))); [|done|by rewrite Hparent|].
    + rewrite dirname_is_take, length_take. lia.
    + rewrite dirname_is_take, length_take. lia.
Qed.

Lemma remove_file (w : World) (p : path) (c : content) :
  p <> [] -> files w !! p = Some (File c) ->
  remove p w = (Ok tt, setFiles (delete p (files w)) w).
Proof. intros Hp Hc. unfold remove. destruct p; [done|]. by rewrite Hc. Qed.

Lemma remove_empty_dir (w : World) (d : path) :
  d <> [] -> files w !! d = Some Dir -> entries (files w) d = [] ->
  remove d w = (Ok tt, setFiles (delete d (files w)) w).
Proof.
  intros Hd Hdir He. unfold remove. destruct d; [done|]. by rewrite Hdir, He.
Qed.

Section Walk.
Variables (fs : gmap path node) (p : path) (c : content).
Hypothesis Hwf : wellFormed fs.
Hypothesis Hfile : fs !! p = Some (File c).
Hypothesis Hother : exists r, is_Some (fs !! r) /\ ~ r `prefix_of` p.

Lemma chain_distinct (n m : nat) :
  (n <= length p)%nat -> (m <= length p)%nat -> take n p = take m p -> n = m.
Proof.
  intros Hn Hm H. apply (f_equal length) in H. rewrite !length_take in H. lia.
Qed.

Lemma lonely_file : lonely fs p p.
Proof.
  intros r Hr Hpr.
  destruct (decide (length r <= length p)%nat) as [Hle|Hgt].
  - by rewrite (prefix_length_eq _ _ Hpr Hle).
  - exfalso.
    assert (Hdir : fs !! take (length p) r = Some Dir).
    { apply (wellFormed_ancestor fs Hwf (length r) r eq_refl Hr).
      split; [|lia]. destruct p; [|simpl; lia].
      by destruct (Hwf [] (mk_is_Some _ _ Hfile)). }
    rewrite (take_of_prefix _ p r Hpr), firstn_all in Hdir by lia.
    congruence.
Qed.

(** An empty directory on the way to [p], below which the walk has passed,
    was lonely. *)
Lemma lonely_step (n : nat) (cur : gmap path node) :
  (n < length p)%nat -> walkedTo fs p n cur ->
  entries cur (take n p) = [] -> lonely fs p (take n p).
Proof.
  intros Hn [Hgone Hkept] Hempty r Hr Hpr.
  assert (Hlen : (n <= length r)%nat).
  { apply prefix_length in Hpr. rewrite length_take in Hpr. lia. }
  assert (Htake : take n r = take n p).
  { rewrite (take_of_prefix n _ r Hpr) by (rewrite length_take; lia).
    rewrite take_take. f_equal. lia. }
  destruct (decide (length r = n)) as [Heq|Hne].
  - rewrite <- (firstn_all r), Heq, Htake. apply prefix_take.
  - set (r1 := take (S n) r).
    assert (Hr1 : is_Some (fs !! r1)).
    { destruct (decide (S n = length r)) as [Hs|Hs].
      - subst r1. by rewrite Hs, firstn_all.
      - subst r1.
        rewrite (wellFormed_ancestor fs Hwf (length r) r eq_refl Hr); [done|lia]. }
    assert (Hd1 : dirname r1 = take n p).
    { subst r1. rewrite dirname_take by lia. exact Htake. }
    assert (Hne1 : r1 <> []).
    { subst r1. intros H0. apply (f_equal length) in H0.
      rewrite length_take in H0. cbn [length] in H0. lia. }
    destruct (decide (r1 = take (S n) p)) as [Hon|Hoff].
    + destruct (Hgone (S n)) as [_ Hlonely]; [lia|].
      apply Hlonely; [done|]. rewrite <- Hon. apply prefix_take.
    + exfalso.
      assert (Hcur : cur !! r1 = fs !! r1).
      { apply Hkept. intros m Hm Heq. apply Hoff.
        assert (m = S n); [|by subst m].
        apply (f_equal length) in Heq. subst r1.
        rewrite !length_take in Heq. lia. }
      assert (Hin : r1 ∈ entries cur (take n p)).
      { apply elem_of_entries. by rewrite Hcur. }
      rewrite Hempty in Hin. by apply elem_of_nil in Hin.
Qed.

(** At a directory that is not empty the walk is over. *)
Lemma cleaned_stop (n : nat) (cur : gmap path node) (e : path) :
  (n < length p)%nat -> walkedTo fs p n cur ->
  e ∈ entries cur (take n p) -> cleaned fs p cur.
Proof.
  intros Hn [Hgone Hkept] He q.
  apply elem_of_entries in He as (Hsome & Hene & Hdir).
  split.
  - intros [Hq Hlonely].
    assert (Hql : (length q <= length p)%nat) by by apply prefix_length.
    destruct (decide (n < length q)%nat) as [Hlt|Hge].
    + rewrite (prefix_is_take q p Hq). apply Hgone. lia.
    + exfalso.
      assert (Heq : e = take (S n) p).
      { assert (Hqe : q `prefix_of` e).
        { rewrite (prefix_is_take q p Hq).
          replace (take (length q) p) with (take (length q) (take n p))
            by (rewrite take_take; f_equal; lia).
          rewrite <- Hdir, dirname_is_take, take_take. apply prefix_take. }
        assert (Hefs : is_Some (fs !! e)).
        { destruct (decide (e = take (S n) p)) as [->|Hoff].
          - destruct (Hgone (S n)) as [Hnone _]; [lia|].
            rewrite Hnone in Hsome. by destruct Hsome.
          - rewrite <- Hkept; [done|]. intros m Hm ->.
            apply Hoff. f_equal.
            rewrite dirname_is_take, length_take, take_take in Hdir.
            apply (f_equal length) in Hdir. rewrite !length_take in Hdir. lia. }
        pose proof (Hlonely e Hefs Hqe) as Hep.
        rewrite (prefix_is_take e p Hep). f_equal.
        apply (f_equal length) in Hdir.
        rewrite dirname_is_take, !length_take in Hdir.
        apply prefix_length in Hep.
        destruct e; [done|]. simpl in *. lia. }
      destruct (Hgone (S n)) as [Hnone _]; [lia|].
      rewrite Heq, Hnone in Hsome. by destruct Hsome.
  - intros Hnot. apply Hkept. intros m Hm ->. apply Hnot.
    split; [apply prefix_take|]. by apply Hgone.
Qed.

Lemma cleanup_walk (fuel : nat) :
  forall (n : nat) (w : World),
    (n < fuel)%nat -> (n < length p)%nat -> walkedTo fs p n (files w) ->
    exists w',
      cleanup fuel (take n p) w = (Ok tt, w')
      /\ net w' = net w /\ cleaned fs p (files w').
Proof.
  induction fuel as [|fuel IH]; intros n w Hfuel Hn Hwalk; [lia|].
  assert (Hisdir : isDir (files w) (take n p) = true).
  { unfold isDir. destruct (take n p) as [|x t] eqn:Ht; [done|].
    rewrite <- Ht. destruct Hwalk as [_ Hkept]. rewrite Hkept.
    - rewrite (wellFormed_ancestor fs Hwf (length p) p eq_refl); [done| |].
      + by rewrite Hfile.
      + split; [|done]. destruct n; [by rewrite take_0 in Ht|lia].
    - intros m Hm Heq. apply chain_distinct in Heq; lia. }
  simpl cleanup.
  rewrite (bind_ok _ _ w (entries (files w) (take n p)) w)
    by (unfold readDir; by rewrite Hisdir).
  destruct (entries (files w) (take n p)) as [|e es] eqn:Hent.
  - pose proof (lonely_step n (files w) Hn Hwalk Hent) as Hlonely.
    destruct n as [|n].
    { exfalso. destruct Hother as (r & Hr & Hnp). apply Hnp.
      apply Hlonely; [done|]. rewrite take_0. apply prefix_nil. }
    assert (Hd : files w !! take (S n) p = Some Dir).
    { destruct Hwalk as [_ Hkept]. rewrite Hkept.
      - apply (wellFormed_ancestor fs Hwf (length p) p eq_refl); [|lia].
        by rewrite Hfile.
      - intros m Hm Heq. apply chain_distinct in Heq; lia. }
    assert (Hne : take (S n) p <> []).
    { intros H0. apply (f_equal length) in H0. rewrite length_take in H0.
      cbn [length] in H0. lia. }
    rewrite (bind_ok _ _ _ _ _ (remove_empty_dir w _ Hne Hd Hent)).
    rewrite dirname_take by lia.
    destruct (IH n (setFiles (delete (take (S n) p) (files w)) w))
      as (w' & Hrun & Hnet & Hclean); [lia|lia| |by exists w'].
    destruct Hwalk as [Hgone Hkept]. split.
    + intros m Hm. simpl files. destruct (decide (m = S n)) as [->|Hm'].
      * split; [apply lookup_delete_eq|done].
      * destruct (Hgone m) as [Hnone Hl]; [lia|]. split; [|done].
        rewrite lookup_delete_ne; [done|].
        intros Heq. apply chain_distinct in Heq; lia.
    + intros q Hq. simpl files.
      rewrite lookup_delete_ne by (apply not_eq_sym, Hq; lia).
      apply Hkept. intros m Hm. apply Hq. lia.
  - exists w. split; [done|]. split; [done|].
    apply (cleaned_stop n (files w) e Hn Hwalk). rewrite Hent. left.
Qed.

End Walk.

Lemma wellFormedb_ok (fs : gmap path node) :
  wellFormedb fs = true -> wellFormed fs.
Proof.
  unfold wellFormedb. intros H p [x Hx].
  assert (Hin : In p (map fst (map_to_list fs))).
  { apply in_map_iff. exists (p, x). split; [done|].
    by apply list_elem_of_In, elem_of_map_to_list. }
  pose proof (proj1 (forallb_forall _ _) H p Hin) as Hp.
  destruct p; [done|]. split; done.
Qed.

(** C6, as the code has it.  Removing a module file of a well-formed tree
    that holds something off the way to that file succeeds; afterwards exactly
    the file and those of its ancestors that held nothing but the way to it
    are gone, whether or not the vendor root is among them, and every other
    entry is as before: the walk stops at the first directory that is not
    empty. *)
Theorem removeFile_cleanup (w : World) (p : path) (c : content) :
  wellFormed (files w) ->
  files w !! p = Some (File c) ->
  (exists r, is_Some (files w !! r) /\ ~ r `prefix_of` p) ->
  exists w',
    removeFile p w = (Ok tt, w')
    /\ net w' = net w
    /\ cleaned (files w) p (files w').
Proof.
  intros Hwf Hfile Hother.
  assert (Hne : p <> []) by (by destruct (Hwf p (mk_is_Some _ _ Hfile))).
  assert (Hlen : (0 < length p)%nat) by (destruct p; [done|simpl; lia]).
  unfold removeFile.
  rewrite (bind_ok _ _ w true w).
  2:{ unfold fs_exists, present. destruct p; [done|]. by rewrite Hfile. }
  change (negb true) with false. cbv iota.
  rewrite (bind_ok _ _ _ _ _ (remove_file w p c Hne Hfile)).
  rewrite dirname_is_take.
  destruct (cleanup_walk (files w) p c Hwf Hfile Hother (S (length p))
              (pred (length p)) (setFiles (delete p (files w)) w))
    as (w' & Hrun & Hnet & Hclean); [lia|lia| |by exists w'].
  split.
  - intros m Hm. assert (m = length p) as -> by lia.
    rewrite firstn_all. simpl files. split; [apply lookup_delete_eq|].
    by apply (lonely_file (files w) p c).
  - intros q Hq. simpl files. apply lookup_delete_ne.
    rewrite <- (firstn_all p). apply not_eq_sym, Hq. lia.
Qed.

Lemma removeFile_cleanup_witness :
  exists w',
    removeFile stdFile vendoredWorld = (Ok tt, w')
    /\ net w' = net vendoredWorld
    /\ cleaned (files vendoredWorld) stdFile (files w').
Proof.
  apply (removeFile_cleanup vendoredWorld stdFile
           (Text (linkText "https://deno.land/std@v0.3.2/a.ts" EmptyString))).
  - apply wellFormedb_ok. vm_compute. reflexivity.
  - vm_compute. reflexivity.
  - exists lockPath. split; [by eexists|]. intros [k Hk]. discriminate Hk.
Defined.

(** C6, as stated, fails: pruning the only vendored file, because its host
    has left the manifest, removes every directory above it, the vendor root
    included. *)
Lemma pruner_deletes_vendor_root :
  files vendoredWorld !! ["vendor"%string] = Some Dir
  /\ fst (deleteRemovedFiles (P := demo) [] (Some [stdEntry]) vendoredWorld)
     = Ok tt
  /\ files (snd (deleteRemovedFiles (P := demo) [] (Some [stdEntry])
                   vendoredWorld)) !! ["vendor"%string] = None.
Proof. vm_compute. repeat split. Qed.

(** ** Relations kept by the steps of a run *)

Section Respects.
Context {A : Type} (R : World -> World -> Prop).
Hypothesis R_refl : forall w, R w w.
Hypothesis R_trans : forall w1 w2 w3, R w1 w2 -> R w2 w3 -> R w1 w3.

Lemma respects_ret (a : A) : respects R (ret a).
Proof. intros w r w' H. inversion H. apply R_refl. Qed.

Lemma respects_throw (e : error) : respects R (throw (A := A) e).
Proof. intros w r w' H. inversion H. apply R_refl. Qed.

Lemma respects_lift (x : result A) : respects R (lift x).
Proof. intros w r w' H. inversion H. apply R_refl. Qed.

Lemma respects_bind {B : Type} (m : IO B) (k : B -> IO A) :
  respects R m -> (forall b, respects R (k b)) -> respects R (bind m k).
Proof.
  intros Hm Hk w r w' H.
  apply bind_inv in H as [(b & w1 & Hb & Hrest)|(e & Hb & _)].
  - eapply R_trans; [eapply Hm, Hb|eapply Hk, Hrest].
  - eapply Hm, Hb.
Qed.

Lemma respects_forEach (f : A -> IO unit) (l : list A) :
  (forall x, respects R (f x)) -> respects R (forEach f l).
Proof.
  intros Hf w r w' H.
  eapply (forEach_rel R f R_refl R_trans l); [|exact H].
  intros x v r0 v' _ Hx. eapply Hf, Hx.
Qed.

End Respects.

Lemma grows_refl (w : World) : grows w w.
Proof. by intros p. Qed.

Lemma grows_trans (w1 w2 w3 : World) : grows w1 w2 -> grows w2 w3 -> grows w1 w3.
Proof. intros H12 H23 p Hp. by apply H23, H12. Qed.

Lemma grows_of_lookup (w w' : World) :
  (forall q, is_Some (files w !! q) -> is_Some (files w' !! q)) -> grows w w'.
Proof.
  intros H p. unfold present. destruct p as [|x p]; [done|].
  specialize (H (x :: p)).
  destruct (files w !! (x :: p)) as [y|]; [|done].
  intros _. by destruct (H (mk_is_Some _ _ eq_refl)) as [z ->].
Qed.

Lemma mkdirFrom_keeps (segs : list string) :
  forall (base : path) (fs fs' : gmap path node),
    mkdirFrom base segs fs = Some fs' ->
    forall q, is_Some (fs !! q) -> is_Some (fs' !! q).
Proof.
  induction segs as [|x rest IH]; intros base fs fs' H q Hq; simpl in H.
  - by injection H as <-.
  - destruct (fs !! (base ++ [x])) as [[c|]|] eqn:Hlook; [done| |].
    + by apply (IH _ _ _ H).
    + apply (IH _ _ _ H). destruct (decide (q = base ++ [x])) as [->|Hne].
      * by rewrite lookup_insert_eq.
      * by rewrite lookup_insert_ne.
Qed.

Lemma grows_mkdir (d : path) : respects grows (mkdir d).
Proof.
  intros w r w' H. unfold mkdir in H.
  destruct (mkdirFrom [] d (files w)) as [fs'|] eqn:Hmk; inversion H; subst.
  - apply grows_of_lookup. simpl. by apply (mkdirFrom_keeps d [] (files w)).
  - apply grows_refl.
Qed.

Lemma grows_writeFile (p : path) (c : content) : respects grows (writeFile p c).
Proof.
  intros w r w' H. unfold writeFile in H.
  assert (Hins : grows w (setFiles (<[p := File c]> (files w)) w)).
  { apply grows_of_lookup. intros q Hq. simpl.
    destruct (decide (q = p)) as [->|Hne].
    - by rewrite lookup_insert_eq.
    - by rewrite lookup_insert_ne. }
  destruct p as [|x p]; [inversion H; apply grows_refl|].
  destruct (files w !! (x :: p)) as [[c'|]|];
    destruct (isDir (files w) (dirname (x :: p)));
    inversion H; subst; (apply grows_refl || exact Hins).
Qed.

Lemma shrinks_refl (w : World) : shrinks w w.
Proof. split; [done|]. by right. Qed.

Lemma shrinks_trans (w1 w2 w3 : World) :
  shrinks w1 w2 -> shrinks w2 w3 -> shrinks w1 w3.
Proof.
  intros [Hn12 H12] [Hn23 H23]. split; [congruence|].
  intros p. destruct (H23 p) as [?|H3]; [by left|].
  rewrite H3. apply H12.
Qed.

Lemma shrinks_absent (w w' : World) (i : path) :
  shrinks w w' -> present (files w) i = false -> present (files w') i = false.
Proof.
  intros [_ H] Hi. unfold present in *. destruct i as [|x i]; [done|].
  destruct (H (x :: i)) as [->| ->]; [done|exact Hi].
Qed.

Lemma shrinks_remove (p : path) : respects shrinks (remove p).
Proof.
  intros w r w' H. unfold remove in H.
  assert (Hdel : shrinks w (setFiles (delete p (files w)) w)).
  { split; [done|]. intros q. simpl.
    destruct (decide (q = p)) as [->|Hne].
    - left. apply lookup_delete_eq.
    - right. by apply lookup_delete_ne. }
  destruct p as [|x p]; [inversion H; apply shrinks_refl|].
  destruct (files w !! (x :: p)) as [[c|]|];
    [| destruct (entries (files w) (x :: p)) |];
    inversion H; subst; (apply shrinks_refl || exact Hdel).
Qed.

Lemma shrinks_readDir (d : path) : respects shrinks (readDir d).
Proof.
  intros w r w' H. unfold readDir in H.
  destruct (isDir (files w) d); inversion H; apply shrinks_refl.
Qed.

Lemma shrinks_cleanup (fuel : nat) :
  forall d, respects shrinks (cleanup fuel d).
Proof.
  induction fuel as [|fuel IH]; intros d; simpl.
  - apply respects_throw, shrinks_refl.
  - apply (respects_bind shrinks shrinks_trans); [apply shrinks_readDir|].
    intros [|e es]; [|apply respects_ret, shrinks_refl].
    apply (respects_bind shrinks shrinks_trans); [apply shrinks_remove|].
    intros _. apply IH.
Qed.

Lemma shrinks_removeFile (i : path) : respects shrinks (removeFile i).
Proof.
  unfold removeFile.
  apply (respects_bind shrinks shrinks_trans).
  - intros w r w' H. inversion H. apply shrinks_refl.
  - intros b. destruct (negb b); [apply respects_ret, shrinks_refl|].
    apply (respects_bind shrinks shrinks_trans); [apply shrinks_remove|].
    intros _. apply shrinks_cleanup.
Qed.

(** A path that has been pruned is absent. *)
Lemma removeFile_gone (i : path) (w w' : World) :
  removeFile i w = (Ok tt, w') -> present (files w') i = false.
Proof.
  unfold removeFile. intros H.
  apply bind_inv_ok in H as (b & w1 & Hex & H). inversion Hex; subst.
  destruct (present (files w1) i) eqn:Hp; cbn [negb] in H.
  - apply bind_inv_ok in H as (u & w2 & Hrm & Hclean).
    apply (shrinks_absent w2 w'); [by apply (shrinks_cleanup _ _ _ _ _ Hclean)|].
    unfold remove in Hrm. unfold present. destruct i as [|x i]; [done|].
    destruct (files w1 !! (x :: i)) as [[c|]|]; [| |done].
    + inversion Hrm; subst. simpl. by rewrite lookup_delete_eq.
    + destruct (entries (files w1) (x :: i)); [|done].
      inversion Hrm; subst. simpl. by rewrite lookup_delete_eq.
  - by inversion H; subst.
Qed.

Lemma removeFile_absent (i : path) (w : World) :
  present (files w) i = false -> removeFile i w = (Ok tt, w).
Proof.
  intros H. unfold removeFile.
  rewrite (bind_ok _ _ w false w); [done|]. unfold fs_exists. by rewrite H.
Qed.

(** Pruning again what has just been pruned changes nothing. *)
Lemma prune_again (l : list path) (w w' : World) :
  forEach removeFile l w = (Ok tt, w') ->
  shrinks w w' /\ forEach removeFile l w' = (Ok tt, w').
Proof.
  intros H. split.
  - apply (respects_forEach shrinks shrinks_refl shrinks_trans removeFile l
             shrinks_removeFile _ _ _ H).
  - apply forEach_noop. intros i Hi. apply removeFile_absent.
    apply (forEach_each (fun i v => present (files v) i = false)
             removeFile l) with (w := w); [| |done|done].
    + intros x v v' _ Hx. by apply (removeFile_gone x v).
    + intros x y v r v' _ Hx Hy.
      by apply (shrinks_absent v v'); [apply (shrinks_removeFile y v r)|].
Qed.

(** ** A second run *)

Section SecondRun.
Context {P : Platform}.

Lemma grows_unchanged {A : Type} (m : IO A) :
  (forall w r w', m w = (r, w') -> files w' = files w) -> respects grows m.
Proof. intros H w r w' Hm p. by rewrite (H w r w' Hm). Qed.

Lemma grows_fs_exists (p : path) : respects grows (fs_exists p).
Proof. apply grows_unchanged. intros w r w' H. by inversion H. Qed.

Lemma grows_httpGet (specifier : string) : respects grows (httpGet specifier).
Proof.
  apply grows_unchanged. intros w r w' H. unfold httpGet in H.
  destruct (fetch specifier); by inversion H.
Qed.

Lemma grows_text (specifier : string) (resp : Response) :
  respects grows (text specifier resp).
Proof. apply grows_unchanged. intros w r w' H. by inversion H. Qed.

Lemma grows_writeLinkFile (host ver : string) (lockFile : option Modules)
  (modName : string) :
  respects grows (writeLinkFile host ver lockFile modName).
Proof.
  unfold writeLinkFile.
  destruct (url_dir host) as [dir|]; [|apply respects_throw, grows_refl].
  apply (respects_bind grows grows_trans); [apply grows_fs_exists|].
  intros hasLink.
  destruct (hasLink && _); [apply respects_ret, grows_refl|].
  apply (respects_bind grows grows_trans); [apply grows_httpGet|].
  intros resp.
  destruct (negb _); [apply respects_throw, grows_refl|].
  destruct (tooBig _); [apply respects_throw, grows_refl|].
  apply (respects_bind grows grows_trans); [apply grows_text|].
  intros code.
  apply (respects_bind grows grows_trans); [apply grows_mkdir|].
  intros _. apply grows_writeFile.
Qed.

Lemma grows_ensureHost (mods : Modules) (lockFile : option Modules)
  (hv : string * Module) :
  respects grows (ensureHost mods lockFile hv).
Proof.
  unfold ensureHost.
  apply (respects_bind grows grows_trans).
  - apply (respects_forEach grows grows_refl grows_trans).
    intros i. apply grows_writeLinkFile.
  - intros _. apply grows_writeFile.
Qed.

Lemma writeFile_written (p : path) (c : content) (w w' : World) :
  writeFile p c w = (Ok tt, w') ->
  files w' !! p = Some (File c) /\ present (files w') p = true.
Proof.
  unfold writeFile, present. intros H. destruct p as [|x p]; [done|].
  assert (Hw : w' = setFiles (<[x :: p := File c]> (files w)) w).
  { destruct (files w !! (x :: p)) as [[c'|]|];
      destruct (isDir (files w) (dirname (x :: p))); by inversion H. }
  subst w'. simpl. by rewrite lookup_insert_eq.
Qed.

Lemma writeFile_same (p : path) (c : content) (w : World) :
  p <> [] ->
  files w !! p = Some (File c) -> isDir (files w) (dirname p) = true ->
  writeFile p c w = (Ok tt, w).
Proof.
  intros Hp Hc Hd. unfold writeFile. destruct p as [|x p]; [done|].
  rewrite Hc, Hd, (insert_id _ _ _ Hc). by destruct w.
Qed.

Lemma writeLinkFile_linked (host ver : string) (lockFile : option Modules)
  (modName : string) (w w' : World) :
  writeLinkFile host ver lockFile modName w = (Ok tt, w') ->
  exists dir,
    url_dir host = Some dir /\ present (files w') (join dir modName) = true.
Proof.
  intros H. pose proof (grows_writeLinkFile _ _ _ _ _ _ _ H) as Hgrows.
  unfold writeLinkFile in H.
  destruct (url_dir host) as [dir|]; [|done].
  exists dir. split; [done|].
  destruct (present (files w) (join dir modName)) eqn:Hp; [by apply Hgrows|].
  apply bind_inv_ok in H as (hasLink & w1 & Hex & H). inversion Hex; subst.
  rewrite Hp in H. cbn [andb] in H.
  apply bind_inv_ok in H as (resp & w2 & _ & H).
  destruct (negb _); [done|]. destruct (tooBig _); [done|].
  apply bind_inv_ok in H as (code & w3 & _ & H).
  apply bind_inv_ok in H as (u & w4 & _ & H).
  by apply writeFile_written in H as [_ H].
Qed.

Lemma writeLinkFile_fast (host ver : string) (lockFile : option Modules)
  (modName : string) (dir : path) (w : World) :
  url_dir host = Some dir ->
  present (files w) (join dir modName) = true ->
  lockedVersionOf host ver lockFile = ver ->
  writeLinkFile host ver lockFile modName w = (Ok tt, w).
Proof.
  intros Hdir Hp Hv. unfold writeLinkFile. rewrite Hdir, Hv.
  rewrite (bind_ok _ _ w true w) by (unfold fs_exists; by rewrite Hp).
  by rewrite String.eqb_refl.
Qed.

Lemma ensureHost_lock (mods : Modules) (lockFile : option Modules)
  (hv : string * Module) (w w' : World) :
  ensureHost mods lockFile hv w = (Ok tt, w') ->
  files w' !! lockPath = Some (File (Doc (toJson mods))).
Proof.
  unfold ensureHost, generateLockFile. intros H.
  apply bind_inv_ok in H as (u & w1 & _ & H).
  by apply writeFile_written in H as [H _].
Qed.

Lemma ensureHost_linked (mods : Modules) (lockFile : option Modules)
  (hv : string * Module) (w w' : World) :
  ensureHost mods lockFile hv w = (Ok tt, w') ->
  forall i, i ∈ modules (snd hv) ->
    exists dir,
      url_dir (fst hv) = Some dir /\ present (files w') (join dir i) = true.
Proof.
  unfold ensureHost, generateLockFile. intros H i Hi.
  apply bind_inv_ok in H as ([] & w1 & Hlinks & Hlock).
  assert (Hw1 : exists dir, url_dir (fst hv) = Some dir
                            /\ present (files w1) (join dir i) = true).
  { apply (forEach_each
             (fun i v => exists dir, url_dir (fst hv) = Some dir
                                     /\ present (files v) (join dir i) = true)
             (writeLinkFile (fst hv) (version (snd hv)) lockFile)
             (modules (snd hv))) with (w := w); [| |done|done].
    - intros x v v' _ Hx. by apply writeLinkFile_linked in Hx.
    - intros x y v r v' _ (dir & Hdir & Hp) Hy. exists dir. split; [done|].
      by apply (grows_writeLinkFile _ _ _ _ _ _ _ Hy). }
  destruct Hw1 as (dir & Hdir & Hp). exists dir. split; [done|].
  by apply (grows_writeFile _ _ _ _ _ Hlock).
Qed.

Lemma readLockFile_eval (w : World) :
  readLockFile w = (lockOutcome (files w !! lockPath), w).
Proof.
  unfold readLockFile, lockOutcome.
  destruct (files w !! lockPath) as [[c|]|] eqn:Hl.
  - rewrite (bind_ok _ _ w true w)
      by (unfold fs_exists, present, lockPath in *; by rewrite Hl).
    rewrite (bind_ok _ _ w c w) by (unfold readFile; by rewrite Hl).
    destruct (JSON_parse c) as [j|e]; [|done].
    rewrite (bind_ok _ _ w j w) by done.
    destruct (isDinkModules j []) as [[b errs]|e]; [|done].
    rewrite (bind_ok _ _ w (b, errs) w) by done.
    by destruct b.
  - rewrite (bind_ok _ _ w true w)
      by (unfold fs_exists, present, lockPath in *; by rewrite Hl).
    apply bind_err. unfold readFile. by rewrite Hl.
  - rewrite (bind_ok _ _ w false w); [done|].
    unfold fs_exists, present, lockPath in *. by rewrite Hl.
Qed.

Lemma readLockFile_of_lock (mods : Modules) (w : World) :
  assoc "hasOwnProperty" mods = None ->
  files w !! lockPath = Some (File (Doc (toJson mods))) ->
  readLockFile w = (Ok (Some mods), w).
Proof.
  intros Hown H. rewrite readLockFile_eval, H. unfold lockOutcome, JSON_parse.
  by rewrite isDinkModules_toJson, asModules_toJson.
Qed.

Lemma readLockFile_shadowed (mods : Modules) (w : World) :
  assoc "hasOwnProperty" mods <> None ->
  files w !! lockPath = Some (File (Doc (toJson mods))) ->
  readLockFile w = (Err TypeError, w).
Proof.
  intros Hown H. rewrite readLockFile_eval, H. unfold lockOutcome, JSON_parse.
  by rewrite isDinkModules_toJson_shadowed.
Qed.

(** A host that the [URL] constructor accepts is not named
    [hasOwnProperty]. *)
Lemma urls_own_nothing (mods : Modules) :
  Forall (fun kv => is_Some (url_dir (fst kv))) mods ->
  assoc "hasOwnProperty" mods = None.
Proof.
  induction 1 as [|[k m] rest [dir Hdir] _ IH]; [done|]. cbn [assoc].
  destruct (String.eqb_spec "hasOwnProperty" k) as [<-|]; [|exact IH].
  cbn [fst] in Hdir. rewrite url_scheme in Hdir; done.
Qed.

Lemma assoc_NoDup (mods : Modules) (k : string) (v : Module) :
  NoDup (map fst mods) -> (k, v) ∈ mods -> assoc k mods = Some v.
Proof.
  induction mods as [|[k' v'] rest IH]; intros Hnd Hin.
  - by apply elem_of_nil in Hin.
  - simpl in *. apply NoDup_cons in Hnd as [Hk' Hnd].
    apply elem_of_cons in Hin as [[= -> ->]|Hin].
    + by rewrite String.eqb_refl.
    + destruct (String.eqb_spec k k') as [->|Hne]; [|by apply IH].
      exfalso. apply Hk'. apply list_elem_of_In, in_map_iff.
      exists (k', v). split; [done|]. by apply list_elem_of_In.
Qed.

Lemma lockedVersionOf_self (mods : Modules) (k : string) (v : Module) :
  assoc k mods = Some v -> lockedVersionOf k (version v) (Some mods) = version v.
Proof.
  intros H. unfold lockedVersionOf. rewrite H. by destruct (version v).
Qed.

Lemma removedFiles_self (mods lockEntries : Modules) (l : list path) :
  (forall k v, (k, v) ∈ lockEntries -> assoc k mods = Some v) ->
  removedFiles mods lockEntries = Ok l -> l = [].
Proof.
  revert l. induction lockEntries as [|[k v] rest IH]; intros l Hall H;
    simpl in H.
  - by injection H as <-.
  - destruct (url_dir k) as [dir|]; [|done].
    destruct (removedFiles mods rest) as [l'|] eqn:Hrest; [|done].
    injection H as <-.
    rewrite (removedOf_kept mods k v v dir); [|apply Hall; left|done].
    apply (IH l'); [|done]. intros k' v' Hin. apply Hall. by right.
Qed.

(** What a successful run leaves behind: the pruned paths are absent and
    pruning them again is idle; for a manifest with a host, the lock file holds
    the manifest and every module file is present. *)
Lemma ensure_ok_inv (mods : Modules) (w0 w1 : World) :
  ensure mods w0 = (Ok tt, w1) ->
  exists (lock : Modules) (l : list path) (wb : World),
    lockOutcome (files w0 !! lockPath) = Ok (Some lock)
    /\ removedFiles mods lock = Ok l
    /\ shrinks w0 wb
    /\ forEach removeFile l wb = (Ok tt, wb)
    /\ forEach (ensureHost mods (Some lock)) mods wb = (Ok tt, w1).
Proof.
  unfold ensure. intros H.
  apply bind_inv_ok in H as (lf & wa & Hread & H).
  rewrite readLockFile_eval in Hread. injection Hread as Hout <-.
  apply bind_inv_ok in H as ([] & wb & Hprune & Hlinks).
  destruct lf as [lock|]; [|done].
  unfold deleteRemovedFiles in Hprune.
  apply bind_inv_ok in Hprune as (l & wc & Hl & Hprune).
  injection Hl as Hl <-.
  destruct (prune_again l w0 wb Hprune) as [Hshr Hagain].
  by exists lock, l, wb.
Qed.

(** After a successful run over at least one host the lock file holds the
    manifest. *)
Lemma ensure_ok_lock (mods : Modules) (w0 w1 : World) :
  mods <> [] -> ensure mods w0 = (Ok tt, w1) ->
  files w1 !! lockPath = Some (File (Doc (toJson mods))).
Proof.
  intros Hne H.
  destruct (ensure_ok_inv mods w0 w1 H)
    as (lock & l0 & wb & _ & _ & _ & _ & Hlinks).
  apply (forEach_last
           (fun v => files v !! lockPath = Some (File (Doc (toJson mods))))
           (ensureHost mods (Some lock)) mods) with (w := wb); [|done|done].
  intros hv v v' Hhv. by apply ensureHost_lock in Hhv.
Qed.

Lemma ensure_again_empty (w0 w1 : World) :
  ensure [] w0 = (Ok tt, w1) ->
  snd (ensure [] w1) = w1
  /\ (is_Some (files w1 !! lockPath) -> fst (ensure [] w1) = Ok tt).
Proof.
  intros H.
  destruct (ensure_ok_inv [] w0 w1 H)
    as (lock & l & wb & Hout & Hl & [_ Hshr] & Hagain & Hlinks).
  injection Hlinks as <-.
  destruct (Hshr lockPath) as [Hnone|Hsame].
  - assert (Hrun : ensure [] wb = (Err TypeError, wb)).
    { unfold ensure.
      rewrite (bind_ok _ _ wb None wb) by by apply readLockFile_absent.
      by apply bind_err. }
    rewrite Hrun. split; [done|]. rewrite Hnone. by intros [x Hx].
  - assert (Hrun : ensure [] wb = (Ok tt, wb)).
    { unfold ensure.
      rewrite (bind_ok _ _ wb (Some lock) wb)
        by (by rewrite readLockFile_eval, Hsame, Hout).
      rewrite (bind_ok _ _ wb tt wb); [done|].
      unfold deleteRemovedFiles.
      by rewrite (bind_ok _ _ wb l wb) by (unfold lift; by rewrite Hl). }
    by rewrite Hrun.
Qed.

Lemma ensure_again_hosts (mods : Modules) (w0 w1 : World) :
  mods <> [] -> NoDup (map fst mods) ->
  ensure mods w0 = (Ok tt, w1) ->
  snd (ensure mods w1) = w1
  /\ (Forall (fun kv => is_Some (url_dir (fst kv))) mods ->
      fst (ensure mods w1) = Ok tt).
Proof.
  intros Hne Hnd H.
  destruct (ensure_ok_inv mods w0 w1 H)
    as (lock & l0 & wb & _ & _ & _ & _ & Hlinks).
  assert (Hlock : files w1 !! lockPath = Some (File (Doc (toJson mods))))
    by by apply (ensure_ok_lock mods w0).
  assert (Hlinked : forall hv, hv ∈ mods -> forall i, i ∈ modules (snd hv) ->
            exists dir, url_dir (fst hv) = Some dir
                        /\ present (files w1) (join dir i) = true).
  { apply (forEach_each
             (fun hv v => forall i, i ∈ modules (snd hv) ->
                exists dir, url_dir (fst hv) = Some dir
                            /\ present (files v) (join dir i) = true)
             (ensureHost mods (Some lock)) mods) with (w := wb); [| |done].
    - intros hv v v' _ Hhv. by apply (ensureHost_linked _ _ _ _ _ Hhv).
    - intros hv y v r v' _ Hq Hy i Hi.
      destruct (Hq i Hi) as (dir & Hdir & Hp). exists dir. split; [done|].
      by apply (grows_ensureHost _ _ _ _ _ _ Hy). }
  assert (Hhosts : forEach (ensureHost mods (Some mods)) mods w1 = (Ok tt, w1)).
  { apply forEach_noop. intros [k v] Hkv. unfold ensureHost.
    rewrite (bind_ok _ _ w1 tt w1).
    - apply writeFile_same; done.
    - apply forEach_noop. intros i Hi. simpl.
      destruct (Hlinked (k, v) Hkv i Hi) as (dir & Hdir & Hp).
      apply (writeLinkFile_fast _ _ _ _ dir); [done|done|].
      apply lockedVersionOf_self. by apply assoc_NoDup. }
  destruct (assoc "hasOwnProperty" mods) as [shadow|] eqn:Hown.
  { assert (Hthrow : readLockFile w1 = (Err TypeError, w1))
      by (apply (readLockFile_shadowed mods); [by rewrite Hown|done]).
    unfold ensure. rewrite (bind_err _ _ _ _ _ Hthrow).
    split; [done|]. intros Hurls.
    rewrite (urls_own_nothing mods Hurls) in Hown. discriminate Hown. }
  assert (Hread : readLockFile w1 = (Ok (Some mods), w1))
    by by apply readLockFile_of_lock.
  unfold ensure. rewrite (bind_ok _ _ _ _ _ Hread). unfold deleteRemovedFiles.
  destruct (removedFiles mods mods) as [l|e] eqn:Hself.
  - assert (l = []) as ->.
    { apply (removedFiles_self mods mods); [|done].
      intros k v. by apply assoc_NoDup. }
    rewrite (bind_ok _ _ w1 tt w1) by done.
    by rewrite Hhosts.
  - rewrite (bind_err _ _ w1 e w1) by done.
    split; [done|]. intros Hurls.
    destruct (removedFiles_total mods mods Hurls) as [l Hl]. congruence.
Qed.

End SecondRun.

(** C4.  After a successful run, a second run with the same manifest, from
    the world the first one left, makes no request and leaves every file, the
    lock file included, as it is; it succeeds when the lock file is there and
    every host of the manifest is a URL. *)
Theorem ensure_twice {P : Platform} (mods : Modules) (w0 w1 : World) :
  NoDup (map fst mods) ->
  ensure mods w0 = (Ok tt, w1) ->
  net (snd (ensure mods w1)) = net w1
  /\ files (snd (ensure mods w1)) = files w1
  /\ (is_Some (files w1 !! lockPath) ->
      Forall (fun kv => is_Some (url_dir (fst kv))) mods ->
      fst (ensure mods w1) = Ok tt).
Proof.
  intros Hnd H. destruct mods as [|hv rest].
  - destruct (ensure_again_empty w0 w1 H) as [-> Hok]. auto.
  - destruct (ensure_again_hosts (hv :: rest) w0 w1) as [-> Hok]; auto.
Qed.

Lemma ensure_twice_witness :
  net (snd (ensure (P := demo) [stdEntry]
              (snd (ensure (P := demo) [stdEntry] freshWorld))))
  = net (snd (ensure (P := demo) [stdEntry] freshWorld))
  /\ files (snd (ensure (P := demo) [stdEntry]
                   (snd (ensure (P := demo) [stdEntry] freshWorld))))
     = files (snd (ensure (P := demo) [stdEntry] freshWorld))
  /\ (is_Some (files (snd (ensure (P := demo) [stdEntry] freshWorld))
                !! lockPath) ->
      Forall (fun kv => is_Some (url_dir (Platform := demo) (fst kv)))
        [stdEntry] ->
      fst (ensure (P := demo) [stdEntry]
             (snd (ensure (P := demo) [stdEntry] freshWorld))) = Ok tt).
Proof.
  apply (ensure_twice (P := demo) [stdEntry] freshWorld
           (snd (ensure (P := demo) [stdEntry] freshWorld))).
  - apply NoDup_singleton.
  - vm_compute. reflexivity.
Defined.

(** ** More on the validator *)

Lemma forallb_isStr (l : list json) :
  forallb isStr l = true <-> exists ms, l = map JStr ms.
Proof.
  split.
  - induction l as [|x l IH]; simpl; [by exists []|].
    intros H. apply andb_true_iff in H as [Hx Hl].
    destruct (IH Hl) as [ms ->]. destruct x; try discriminate Hx.
    by exists (s :: ms).
  - intros [ms ->]. induction ms as [|m ms IH]; [done|]. exact IH.
Qed.

Lemma checkEntry_accepts (m : json) (errors errors' : list string) :
  checkEntry m errors = Ok (true, errors') <-> shaped m /\ errors' = errors.
Proof.
  unfold checkEntry, shaped. split.
  - destruct m as [| | | |l|props]; simpl; try discriminate.
    destruct (assoc "version" props) as [[| | |v| |]|] eqn:Hv; simpl;
      try discriminate.
    destruct (assoc "modules" props) as [[| | | |l|]|] eqn:Hm; simpl;
      try discriminate.
    destruct (forallb isStr l) eqn:Hl; [|discriminate].
    intros [= <-]. apply forallb_isStr in Hl as [ms ->].
    split; [|done]. by exists props, v, ms.
  - intros [(props & v & ms & -> & Hv & Hm) ->]. simpl. rewrite Hv, Hm. simpl.
    by rewrite (proj2 (forallb_isStr _) (ex_intro _ ms eq_refl)).
Qed.

Lemma checkEntry_outcome (m : json) (errors : list string) :
  match checkEntry m errors with
  | Ok (true, errors') => errors' = errors
  | Ok (false, errors') =>
      exists msg, msg ∈ validatorMessages /\ errors' = errors ++ [msg]
  | Err e => e = TypeError /\ m = JNull
  end.
Proof.
  unfold checkEntry, validatorMessages.
  assert (Hv : msgVersion ∈ [msgNotObject; msgVersion; msgModules; msgContent])
    by (right; left).
  assert (Hm : msgModules ∈ [msgNotObject; msgVersion; msgModules; msgContent])
    by (do 2 right; left).
  assert (Hc : msgContent ∈ [msgNotObject; msgVersion; msgModules; msgContent])
    by (do 3 right; left).
  destruct m as [| | | |l|props]; simpl; eauto.
  destruct (isString (assoc "version" props)); simpl; eauto.
  destruct (assoc "modules" props) as [[| | | |l|]|]; eauto.
  destruct (forallb isStr l); eauto.
Qed.

Lemma checkEntries_accepts (kvs : list (string * json)) (errors : list string) :
  (exists errors', checkEntries kvs errors = Ok (true, errors'))
  <-> Forall (fun kv => shaped (snd kv)) kvs.
Proof.
  revert errors.
  induction kvs as [|[k m] rest IH]; intros errors; simpl.
  - split; [constructor|by eexists].
  - pose proof (checkEntry_accepts m errors) as Hacc.
    destruct (checkEntry m errors) as [[[] e]|] eqn:Hm.
    + destruct (proj1 (Hacc e) eq_refl) as [Hshaped ->].
      rewrite IH. split; [by constructor|by inversion 1].
    + split; [by intros [? [=]]|]. inversion 1 as [|? ? Hs _]; subst.
      simpl in Hs. discriminate (proj2 (Hacc errors) (conj Hs eq_refl)).
    + split; [by intros [? [=]]|]. inversion 1 as [|? ? Hs _]; subst.
      simpl in Hs. discriminate (proj2 (Hacc errors) (conj Hs eq_refl)).
Qed.

(** The validator accepts an object exactly when the object has no property
    named [hasOwnProperty] and every one of its entries is an object with a
    string [version] and an array of strings [modules]. *)
Theorem isDinkModules_object_iff (kvs : list (string * json))
  (errors : list string) :
  (exists errors', isDinkModules (JObj kvs) errors = Ok (true, errors'))
  <-> assoc "hasOwnProperty" kvs = None
      /\ Forall (fun kv => shaped (snd kv)) kvs.
Proof.
  unfold isDinkModules, ownsHasOwnProperty. cbn [typeof forInOwn].
  destruct (assoc "hasOwnProperty" kvs) as [shadow|].
  - split; [by intros [? [=]]|by intros [[=] _]].
  - rewrite checkEntries_accepts. tauto.
Qed.

Lemma isDinkModules_object_iff_witness :
  exists errors',
    isDinkModules (JObj [(stdHost, moduleToJson (snd stdEntry))]) []
    = Ok (true, errors').
Proof.
  apply (proj2 (isDinkModules_object_iff
                  [(stdHost, moduleToJson (snd stdEntry))] [])).
  split; [reflexivity|]. constructor; [|constructor].
  by exists [("version"%string, JStr "@v0.3.2");
             ("modules"%string, JArr [JStr "/a.ts"])],
            "@v0.3.2"%string, ["/a.ts"%string].
Defined.

Lemma checkEntries_outcome (kvs : list (string * json)) (errors : list string) :
  match checkEntries kvs errors with
  | Ok (true, errors') => errors' = errors
  | Ok (false, errors') =>
      exists msg, msg ∈ validatorMessages /\ errors' = errors ++ [msg]
  | Err e => e = TypeError /\ exists k, (k, JNull) ∈ kvs
  end.
Proof.
  induction kvs as [|[k m] rest IH]; simpl; [done|].
  pose proof (checkEntry_outcome m errors) as Hm.
  destruct (checkEntry m errors) as [[[] e]|e].
  - subst e. destruct (checkEntries rest errors) as [[[] e']|e']; [done..|].
    destruct IH as [-> [k' Hk']]. split; [done|]. exists k'. by right.
  - done.
  - destruct Hm as [-> ->]. split; [done|]. exists k. left.
Qed.

Lemma isDinkModules_throws (x : json) (errors : list string) (e : error) :
  isDinkModules x errors = Err e -> e = TypeError.
Proof.
  unfold isDinkModules. intros H.
  pose proof (checkEntries_outcome (forInOwn x) errors) as Hout.
  destruct (typeof (Some x)); try discriminate H.
  destruct (ownsHasOwnProperty x); [by injection H as <-|].
  rewrite H in Hout. by destruct Hout.
Qed.

(** Whatever the document, the validator either accepts and leaves [errors]
    as it was, or rejects and pushes exactly one of its four messages, or
    throws a [TypeError]: on a document that has a property named
    [hasOwnProperty], and otherwise on an entry that is [null]. *)
Theorem isDinkModules_outcome (x : json) (errors : list string) :
  match isDinkModules x errors with
  | Ok (true, errors') => errors' = errors
  | Ok (false, errors') =>
      exists msg, msg ∈ validatorMessages /\ errors' = errors ++ [msg]
  | Err e =>
      e = TypeError
      /\ (ownsHasOwnProperty x = true \/ exists k, (k, JNull) ∈ forInOwn x)
  end.
Proof.
  unfold isDinkModules.
  assert (Hn : exists msg, msg ∈ validatorMessages
                           /\ errors ++ [msgNotObject] = errors ++ [msg]).
  { exists msgNotObject. split; [left|done]. }
  destruct (typeof (Some x)); try exact Hn.
  destruct (ownsHasOwnProperty x); [by split; [|left]|].
  pose proof (checkEntries_outcome (forInOwn x) errors) as Hout.
  destruct (checkEntries (forInOwn x) errors) as [[[] e]|e]; [done..|].
  destruct Hout as [-> Hnull]. split; [done|by right].
Qed.

(** ** More on the lock file *)

(** Unless a directory sits at the lock path, [generateLockFile] succeeds
    and touches no other entry; [readLockFile] then yields the very manifest
    that was written, except that it throws a [TypeError] when the manifest
    has a host named [hasOwnProperty]. *)
Theorem lock_round_trip (mods : Modules) (w : World) :
  files w !! lockPath <> Some Dir ->
  exists w',
    generateLockFile mods w = (Ok tt, w')
    /\ readLockFile w'
       = (match assoc "hasOwnProperty" mods with
          | None => Ok (Some mods)
          | Some _ => Err TypeError
          end, w')
    /\ net w' = net w
    /\ forall q, q <> lockPath -> files w' !! q = files w !! q.
Proof.
  intros Hnd.
  exists (setFiles (<[lockPath := File (Doc (toJson mods))]> (files w)) w).
  assert (Hgen : generateLockFile mods w
                 = (Ok tt, setFiles (<[lockPath := File (Doc (toJson mods))]>
                                       (files w)) w)).
  { unfold generateLockFile, writeFile.
    change (isDir (files w) (dirname lockPath)) with true.
    unfold lockPath in *. by destruct (files w !! _) as [[c|]|]. }
  split; [done|]. split; [|split; [done|]].
  - destruct (assoc "hasOwnProperty" mods) as [shadow|] eqn:Hown.
    + apply (readLockFile_shadowed mods); [by rewrite Hown|].
      simpl. apply lookup_insert_eq.
    + apply readLockFile_of_lock; [done|]. simpl. apply lookup_insert_eq.
  - intros q Hq. simpl. by apply lookup_insert_ne.
Qed.

Lemma lock_round_trip_witness :
  exists w',
    generateLockFile [stdEntry; xEntry] freshWorld = (Ok tt, w')
    /\ readLockFile w' = (Ok (Some [stdEntry; xEntry]), w')
    /\ net w' = net freshWorld
    /\ forall q, q <> lockPath -> files w' !! q = files freshWorld !! q.
Proof.
  apply (lock_round_trip [stdEntry; xEntry] freshWorld).
  discriminate.
Defined.

(** A lock file that parses but that the validator rejects is fatal: the
    run throws with the validator's messages and the world is as before. *)
Theorem ensure_rejected_lock {P : Platform} (mods : Modules) (w : World)
  (j : json) (errors : list string) :
  files w !! lockPath = Some (File (Doc j)) ->
  isDinkModules j [] = Ok (false, errors) ->
  ensure mods w = (Err (LockFormat errors), w).
Proof.
  intros Hlock Hrej. unfold ensure. apply bind_err.
  rewrite readLockFile_eval, Hlock. unfold lockOutcome, JSON_parse.
  by rewrite Hrej.
Qed.

Lemma ensure_rejected_lock_witness :
  ensure (P := demo) [stdEntry] brokenLockWorld
  = (Err (LockFormat [msgVersion]), brokenLockWorld).
Proof.
  apply (ensure_rejected_lock (P := demo) [stdEntry] brokenLockWorld
           (JObj [(stdHost, JObj [])]) [msgVersion]); reflexivity.
Defined.

Lemma removedFiles_error {P : Platform} (mods lock : Modules) (e : error) :
  removedFiles mods lock = Err e -> e = TypeError.
Proof.
  induction lock as [|[k v] rest IH]; simpl; [done|].
  destruct (url_dir k); [|by intros [= <-]].
  destruct (removedFiles mods rest); [done|]. intros [= <-]. by apply IH.
Qed.

Lemma removedFiles_stray {P : Platform} (mods lock : Modules) (k : string)
  (v : Module) :
  (k, v) ∈ lock -> url_dir k = None -> removedFiles mods lock = Err TypeError.
Proof.
  intros Hin Hk.
  destruct (removedFiles mods lock) as [l|e] eqn:Hrun;
    [|by rewrite (removedFiles_error _ _ _ Hrun)].
  exfalso. revert l Hrun.
  induction lock as [|[k0 v0] rest IH]; intros l Hrun.
  - by apply elem_of_nil in Hin.
  - simpl in Hrun. apply elem_of_cons in Hin as [[= <- <-]|Hin].
    + by rewrite Hk in Hrun.
    + destruct (url_dir k0); [|done].
      destruct (removedFiles mods rest) as [l'|]; [|done].
      by apply (IH Hin l').
Qed.

(** A lock state with a host that is no URL is fatal before anything is
    removed: the list of paths to remove is computed in full first, so the
    run throws a [TypeError] and the world is as before. *)
Theorem ensure_stray_lock_host {P : Platform} (mods lock : Modules)
  (w : World) (k : string) (v : Module) :
  files w !! lockPath = Some (File (Doc (toJson lock))) ->
  (k, v) ∈ lock -> url_dir k = None ->
  ensure mods w = (Err TypeError, w).
Proof.
  intros Hlock Hin Hk. unfold ensure.
  destruct (assoc "hasOwnProperty" lock) as [shadow|] eqn:Hown.
  { apply bind_err. apply (readLockFile_shadowed lock); [by rewrite Hown|done]. }
  rewrite (bind_ok _ _ w (Some lock) w) by by apply readLockFile_of_lock.
  apply bind_err. unfold deleteRemovedFiles. apply bind_err.
  unfold lift. by rewrite (removedFiles_stray mods lock k v).
Qed.

Lemma ensure_stray_lock_host_witness :
  ensure (P := demo) [stdEntry] strayLockWorld = (Err TypeError, strayLockWorld).
Proof.
  apply (ensure_stray_lock_host (P := demo) [stdEntry] [strayEntry]
           strayLockWorld (fst strayEntry) (snd strayEntry));
    [reflexivity|left|reflexivity].
Defined.

(** ** More on the link writer *)

Lemma logs_refl (w : World) : logs w w.
Proof. by exists []. Qed.

Lemma logs_trans (w1 w2 w3 : World) : logs w1 w2 -> logs w2 w3 -> logs w1 w3.
Proof.
  intros [l1 H1] [l2 H2]. exists (l2 ++ l1). by rewrite H2, H1, app_assoc.
Qed.

Lemma logs_same_net {A : Type} (m : IO A) :
  (forall w r w', m w = (r, w') -> net w' = net w) -> respects logs m.
Proof. intros H w r w' Hm. exists []. by rewrite (H w r w' Hm). Qed.

Lemma logs_mkdir (d : path) : respects logs (mkdir d).
Proof.
  apply logs_same_net. intros w r w' H. unfold mkdir in H.
  by destruct (mkdirFrom [] d (files w)); inversion H.
Qed.

Lemma logs_writeFile (p : path) (c : content) : respects logs (writeFile p c).
Proof.
  apply logs_same_net. intros w r w' H. unfold writeFile in H.
  destruct p as [|x p]; [by inversion H|].
  by destruct (files w !! (x :: p)) as [[c'|]|];
    destruct (isDir (files w) (dirname (x :: p))); inversion H.
Qed.

Section LinkWriter.
Context {P : Platform}.

(** What follows the request in [writeLinkFile] only adds to the log. *)
Lemma logs_after_get (specifier : string) (modFile : path) (resp : Response) :
  respects logs
    (if negb (status resp =? 200) then throw (FetchFailed specifier)
     else
       if tooBig (parseInt (headerOrZero (contentLengthHeader resp)))
       then throw (TooBig (default 0 (parseInt (headerOrZero
                                                  (contentLengthHeader resp)))))
       else
         let* code := text specifier resp in
         let* _ := mkdir (dirname modFile) in
         writeFile modFile (Text (linkText (url resp) code))).
Proof.
  destruct (negb _); [apply respects_throw, logs_refl|].
  destruct (tooBig _); [apply respects_throw, logs_refl|].
  apply (respects_bind logs logs_trans).
  { intros w r w' H. inversion H; subst. by exists [BodyRead specifier]. }
  intros code. apply (respects_bind logs logs_trans); [apply logs_mkdir|].
  intros _. apply logs_writeFile.
Qed.

Lemma writeLinkFile_slow_log (host ver modName : string)
  (lockFile : option Modules) (dir : path) (w : World) :
  url_dir host = Some dir ->
  present (files w) (join dir modName)
    && String.eqb ver (lockedVersionOf host ver lockFile) = false ->
  exists later,
    net (snd (writeLinkFile host ver lockFile modName w))
    = later ++ Fetched (host +:+ ver +:+ modName) :: net w.
Proof.
  intros Hdir Hslow. unfold writeLinkFile. rewrite Hdir.
  rewrite (bind_ok _ _ w (present (files w) (join dir modName)) w) by done.
  rewrite Hslow.
  set (specifier := host +:+ ver +:+ modName).
  destruct (fetch specifier) as [resp|] eqn:Hfetch.
  - rewrite (bind_ok _ _ w resp (logEvent (Fetched specifier) w))
      by (unfold httpGet; by rewrite Hfetch).
    match goal with
    | |- context [snd (?m (logEvent (Fetched specifier) w))] =>
        destruct (m (logEvent (Fetched specifier) w)) as [r w'] eqn:Hrun
    end.
    destruct (logs_after_get specifier (join dir modName) resp _ _ _ Hrun)
      as [later Hlater].
    exists later. simpl. by rewrite Hlater.
  - rewrite (bind_err _ _ w (NetworkError specifier)
               (logEvent (Fetched specifier) w))
      by (unfold httpGet; by rewrite Hfetch).
    by exists [].
Qed.

End LinkWriter.

(** A version bump forces a request: when the lock state records another,
    non-empty version for the host, the module is requested again even though
    its file is on disk. *)
Theorem writeLinkFile_version_bump {P : Platform} (host ver modName : string)
  (lock : Modules) (e : Module) (dir : path) (w : World) :
  url_dir host = Some dir ->
  assoc host lock = Some e ->
  version e <> EmptyString -> version e <> ver ->
  exists later,
    net (snd (writeLinkFile host ver (Some lock) modName w))
    = later ++ Fetched (host +:+ ver +:+ modName) :: net w.
Proof.
  intros Hdir He Hne Hver. apply (writeLinkFile_slow_log _ _ _ _ dir); [done|].
  apply andb_false_iff. right. unfold lockedVersionOf. rewrite He.
  destruct (String.eqb_spec ver (match version e with
                                 | EmptyString => ver
                                 | String a s => String a s
                                 end)) as [Heq|]; [|done].
  destruct (version e); [done|]. by destruct Hver.
Qed.

Lemma writeLinkFile_version_bump_witness :
  exists later,
    net (snd (writeLinkFile (P := demo) stdHost "@v0.4.0" (Some [stdEntry])
                "/a.ts" vendoredWorld))
    = later ++ Fetched "https://deno.land/std@v0.4.0/a.ts" :: net vendoredWorld.
Proof.
  apply (writeLinkFile_version_bump (P := demo) stdHost "@v0.4.0" "/a.ts"
           [stdEntry] (snd stdEntry) stdDir vendoredWorld);
    [reflexivity|reflexivity|discriminate|discriminate].
Defined.

(** A file on disk counts as linked, with no request and no change, unless
    the lock state records a different non-empty version for its host: so
    also when there is no lock state, when the host is not in it, and when the
    recorded version is the empty string. *)
Theorem writeLinkFile_satisfied {P : Platform} (host ver modName : string)
  (lockFile : option Modules) (dir : path) (w : World) :
  url_dir host = Some dir ->
  present (files w) (join dir modName) = true ->
  match lockFile with
  | None => True
  | Some lock =>
      match assoc host lock with
      | None => True
      | Some e => version e = EmptyString \/ version e = ver
      end
  end ->
  writeLinkFile host ver lockFile modName w = (Ok tt, w).
Proof.
  intros Hdir Hp Hlock. apply (writeLinkFile_fast _ _ _ _ dir); [done|done|].
  unfold lockedVersionOf. destruct lockFile as [lock|]; [|done].
  destruct (assoc host lock) as [e|]; [|done].
  destruct Hlock as [-> | ->]; [done|]. by destruct ver.
Qed.

Lemma writeLinkFile_satisfied_witness :
  writeLinkFile (P := demo) stdHost "@v9.9.9" (Some []) "/a.ts" vendoredWorld
  = (Ok tt, vendoredWorld).
Proof.
  apply (writeLinkFile_satisfied (P := demo) stdHost "@v9.9.9" "/a.ts"
           (Some []) stdDir vendoredWorld); [reflexivity|reflexivity|exact I].
Defined.

(** A request that fails, or that is answered with a status other than 200,
    makes the invocation throw with the file system as it was and the body
    unread. *)
Theorem writeLinkFile_fetch_failure {P : Platform} (host ver modName : string)
  (lockFile : option Modules) (dir : path) (w : World) :
  url_dir host = Some dir ->
  present (files w) (join dir modName)
    && String.eqb ver (lockedVersionOf host ver lockFile) = false ->
  match fetch (host +:+ ver +:+ modName) with
  | None => True
  | Some resp => status resp <> 200
  end ->
  writeLinkFile host ver lockFile modName w
  = (Err (match fetch (host +:+ ver +:+ modName) with
          | None => NetworkError (host +:+ ver +:+ modName)
          | Some _ => FetchFailed (host +:+ ver +:+ modName)
          end),
     logEvent (Fetched (host +:+ ver +:+ modName)) w).
Proof.
  intros Hdir Hslow Hfail. unfold writeLinkFile. rewrite Hdir.
  rewrite (bind_ok _ _ w (present (files w) (join dir modName)) w) by done.
  rewrite Hslow.
  destruct (fetch (host +:+ ver +:+ modName)) as [resp|] eqn:Hfetch.
  - rewrite (bind_ok _ _ w resp (logEvent (Fetched (host +:+ ver +:+ modName)) w))
      by (unfold httpGet; by rewrite Hfetch).
    apply Z.eqb_neq in Hfail. by rewrite Hfail.
  - apply bind_err. unfold httpGet. by rewrite Hfetch.
Qed.

Lemma writeLinkFile_fetch_failure_witness :
  writeLinkFile (P := demo) xHost "@v1.0.0" (Some []) "/b.ts" freshWorld
  = (Err (FetchFailed "https://deno.land/x@v1.0.0/b.ts"),
     logEvent (Fetched "https://deno.land/x@v1.0.0/b.ts") freshWorld).
Proof.
  apply (writeLinkFile_fetch_failure (P := demo) xHost "@v1.0.0" "/b.ts"
           (Some []) ["vendor"; "https"; "deno.land"; "x"]%string freshWorld);
    [reflexivity|reflexivity|discriminate].
Defined.

Lemma mkdir_frame (w : World) (d : path) :
  fileInWay (files w) d = false ->
  exists fs',
    mkdir d w = (Ok tt, setFiles fs' w)
    /\ (forall q, q <> [] -> q `prefix_of` d -> fs' !! q = Some Dir)
    /\ (forall q, ~ (q <> [] /\ q `prefix_of` d) -> fs' !! q = files w !! q).
Proof.
  intros Hway.
  destruct (mkdirFrom_spec d [] (files w)) as (fs' & Hmk & Hdirs & Hrest).
  { intros k c Hk. simpl. by apply fileInWay_false. }
  exists fs'. split; [|split].
  - unfold mkdir. by rewrite Hmk.
  - intros q Hne Hq. rewrite (prefix_is_take q d Hq). apply (Hdirs (length q)).
    split; [destruct q; [done|simpl; lia]|by apply prefix_length].
  - intros q Hq. apply Hrest. intros k Hk Heq.
    change ([] ++ take k d) with (take k d) in Heq. subst q. apply Hq. split.
    + intros H0. apply (f_equal length) in H0. rewrite length_take in H0.
      cbn [length] in H0. lia.
    + apply prefix_take.
Qed.

(** A successful fetch writes the shim and nothing else: the target file
    holds the text built from the response, the directories on the way to it
    exist, and every other entry of the file system is as before. *)
Theorem writeLinkFile_writes {P : Platform} (host ver modName : string)
  (lockFile : option Modules) (dir : path) (resp : Response) (w : World) :
  url_dir host = Some dir ->
  present (files w) (join dir modName)
    && String.eqb ver (lockedVersionOf host ver lockFile) = false ->
  fetch (host +:+ ver +:+ modName) = Some resp ->
  status resp = 200 ->
  tooBig (parseInt (headerOrZero (contentLengthHeader resp))) = false ->
  join dir modName <> [] ->
  files w !! join dir modName <> Some Dir ->
  fileInWay (files w) (dirname (join dir modName)) = false ->
  exists fs',
    writeLinkFile host ver lockFile modName w
    = (Ok tt,
       {| files := fs';
          net := BodyRead (host +:+ ver +:+ modName)
                 :: Fetched (host +:+ ver +:+ modName) :: net w |})
    /\ fs' !! join dir modName
       = Some (File (Text (linkText (url resp) (body resp))))
    /\ (forall q, q <> [] -> q `prefix_of` dirname (join dir modName) ->
          fs' !! q = Some Dir)
    /\ (forall q, q <> join dir modName ->
          ~ q `prefix_of` dirname (join dir modName) ->
          fs' !! q = files w !! q).
Proof.
  intros Hdir Hslow Hfetch Hstatus Hguard Hne Hnotdir Hway.
  set (specifier := host +:+ ver +:+ modName) in *.
  set (modFile := join dir modName) in *.
  set (w1 := logEvent (Fetched specifier) w).
  set (w2 := logEvent (BodyRead specifier) w1).
  destruct (mkdir_frame w2 (dirname modFile) Hway)
    as (fs1 & Hmk & Hdirs & Hkeep).
  assert (Hoff : ~ (modFile <> [] /\ modFile `prefix_of` dirname modFile)).
  { intros [_ Hpre]. apply prefix_length in Hpre.
    rewrite (length_dirname modFile Hne) in Hpre. lia. }
  exists (<[modFile := File (Text (linkText (url resp) (body resp)))]> fs1).
  split; [|split; [apply lookup_insert_eq|split]].
  - unfold writeLinkFile. rewrite Hdir. fold modFile. fold specifier.
    rewrite (bind_ok _ _ w (present (files w) modFile) w) by done.
    rewrite Hslow.
    rewrite (bind_ok _ _ w resp w1) by (unfold httpGet; by rewrite Hfetch).
    rewrite Hstatus. change (negb (200 =? 200)) with false. cbv iota.
    rewrite Hguard.
    rewrite (bind_ok _ _ w1 (body resp) w2) by done.
    rewrite (bind_ok _ _ _ _ _ Hmk).
    unfold writeFile. destruct modFile as [|x rest] eqn:Hmod; [done|].
    rewrite <- Hmod in *. simpl files.
    rewrite (Hkeep modFile Hoff).
    assert (Hisdir : isDir fs1 (dirname modFile) = true).
    { unfold isDir. destruct (dirname modFile) as [|y d] eqn:Hd; [done|].
      by rewrite (Hdirs (y :: d)). }
    rewrite Hisdir.
    change (files w2 !! modFile) with (files w !! modFile).
    destruct (files w !! modFile) as [[c|]|] eqn:Hlook; done.
  - intros q Hq Hpre. rewrite lookup_insert_ne.
    + by apply Hdirs.
    + intros <-. by apply Hoff.
  - intros q Hq Hpre. rewrite lookup_insert_ne by done.
    apply Hkeep. by intros [_ ?].
Qed.

Lemma writeLinkFile_writes_witness :
  exists fs',
    writeLinkFile (P := demo) stdHost "@v0.3.2" (Some []) "/a.ts" freshWorld
    = (Ok tt,
       {| files := fs';
          net := [BodyRead "https://deno.land/std@v0.3.2/a.ts";
                  Fetched "https://deno.land/std@v0.3.2/a.ts"] |})
    /\ fs' !! stdFile
       = Some (File (Text (linkText "https://deno.land/std@v0.3.2/a.ts"
                                    "export const a = 1;")))
    /\ (forall q, q <> [] -> q `prefix_of` stdDir -> fs' !! q = Some Dir)
    /\ (forall q, q <> stdFile -> ~ q `prefix_of` stdDir ->
          fs' !! q = files freshWorld !! q).
Proof.
  apply (writeLinkFile_writes (P := demo) stdHost "@v0.3.2" "/a.ts"
           (Some []) stdDir (okResponse "https://deno.land/std@v0.3.2/a.ts")
           freshWorld);
    [reflexivity|reflexivity|reflexivity|reflexivity|reflexivity|discriminate
    |discriminate|reflexivity].
Defined.

(** ** More on the pruner and on whole runs *)

(** The pruner only deletes: whatever its outcome, it makes no request and
    every entry it leaves is an entry that was there, unchanged. *)
Theorem deleteRemovedFiles_only_deletes {P : Platform} (mods : Modules)
  (lockFile : option Modules) (w : World) :
  shrinks w (snd (deleteRemovedFiles mods lockFile w)).
Proof.
  destruct (deleteRemovedFiles mods lockFile w) as [r w'] eqn:Hrun. simpl.
  revert w r w' Hrun. change (respects shrinks (deleteRemovedFiles mods lockFile)).
  unfold deleteRemovedFiles. destruct lockFile as [lf|].
  - apply (respects_bind shrinks shrinks_trans).
    + apply respects_lift, shrinks_refl.
    + intros l. apply (respects_forEach shrinks shrinks_refl shrinks_trans).
      apply shrinks_removeFile.
  - apply respects_throw, shrinks_refl.
Qed.

(** The link phase never removes: whatever its outcome, every path that was
    present when it started is present when it ends. *)
Theorem link_phase_only_adds {P : Platform} (mods : Modules)
  (lockFile : option Modules) (w : World) :
  grows w (snd (forEach (ensureHost mods lockFile) mods w)).
Proof.
  destruct (forEach (ensureHost mods lockFile) mods w) as [r w'] eqn:Hrun.
  simpl.
  apply (respects_forEach grows grows_refl grows_trans
           (ensureHost mods lockFile) mods
           (grows_ensureHost mods lockFile) _ _ _ Hrun).
Qed.

Section Fuel.
Context {P : Platform}.

Lemma fuelled_ret {A : Type} (a : A) : fuelled (ret a).
Proof. by intros w. Qed.

Lemma fuelled_throw {A : Type} (e : error) :
  e <> OutOfFuel -> fuelled (throw (A := A) e).
Proof. intros He w. simpl. congruence. Qed.

Lemma fuelled_bind {A B : Type} (m : IO A) (k : A -> IO B) :
  fuelled m -> (forall a, fuelled (k a)) -> fuelled (bind m k).
Proof.
  intros Hm Hk w. unfold bind. specialize (Hm w).
  destruct (m w) as [[a|e] w1]; [apply Hk|].
  simpl in *. intros [= ->]. by apply Hm.
Qed.

Lemma fuelled_forEach {A : Type} (f : A -> IO unit) (l : list A) :
  (forall x, fuelled (f x)) -> fuelled (forEach f l).
Proof.
  intros Hf. induction l as [|x l IH]; simpl; [apply fuelled_ret|].
  apply fuelled_bind; [apply Hf|]. intros _. exact IH.
Qed.

Lemma fuelled_readDir (d : path) : fuelled (readDir d).
Proof. intros w. unfold readDir. by destruct (isDir (files w) d). Qed.

Lemma fuelled_remove (p : path) : fuelled (remove p).
Proof.
  intros w. unfold remove. destruct p as [|x p]; [done|].
  destruct (files w !! (x :: p)) as [[c|]|]; try done.
  by destruct (entries (files w) (x :: p)).
Qed.

Lemma fuelled_mkdir (d : path) : fuelled (mkdir d).
Proof. intros w. unfold mkdir. by destruct (mkdirFrom [] d (files w)). Qed.

Lemma fuelled_writeFile (p : path) (c : content) : fuelled (writeFile p c).
Proof.
  intros w. unfold writeFile. destruct p as [|x p]; [done|].
  by destruct (files w !! (x :: p)) as [[c'|]|];
    destruct (isDir (files w) (dirname (x :: p))).
Qed.

(** The loop ends within [fuel] turns when [fuel] exceeds the depth of the
    directory it starts from: the working directory cannot be removed. *)
Lemma cleanup_fuel (fuel : nat) :
  forall d, (length d < fuel)%nat -> fuelled (cleanup fuel d).
Proof.
  induction fuel as [|fuel IH]; intros d Hd; [lia|].
  cbn [cleanup]. apply fuelled_bind; [apply fuelled_readDir|].
  intros [|e es]; [|apply fuelled_ret].
  destruct d as [|x d].
  - intros w. unfold bind. simpl. congruence.
  - apply fuelled_bind; [apply fuelled_remove|]. intros _. apply IH.
    rewrite (length_dirname (x :: d)) in Hd by done. lia.
Qed.

Lemma fuelled_removeFile (i : path) : fuelled (removeFile i).
Proof.
  unfold removeFile. apply fuelled_bind; [by intros w|].
  intros ex. destruct (negb ex); [apply fuelled_ret|].
  apply fuelled_bind; [apply fuelled_remove|]. intros _.
  apply cleanup_fuel. rewrite dirname_is_take, length_take. lia.
Qed.

Lemma fuelled_writeLinkFile (host ver : string) (lockFile : option Modules)
  (modName : string) :
  fuelled (writeLinkFile host ver lockFile modName).
Proof.
  unfold writeLinkFile.
  destruct (url_dir host) as [dir|]; [|by apply fuelled_throw].
  apply fuelled_bind; [by intros w|]. intros hasLink.
  destruct (hasLink && _); [apply fuelled_ret|].
  apply fuelled_bind.
  { intros w. unfold httpGet. by destruct (fetch _). }
  intros resp. destruct (negb _); [by apply fuelled_throw|].
  destruct (tooBig _); [by apply fuelled_throw|].
  apply fuelled_bind; [by intros w|]. intros code.
  apply fuelled_bind; [apply fuelled_mkdir|]. intros _.
  apply fuelled_writeFile.
Qed.

Lemma fuelled_readLockFile : fuelled readLockFile.
Proof.
  intros w. rewrite readLockFile_eval. simpl. unfold lockOutcome.
  destruct (files w !! lockPath) as [[c|]|]; try done.
  destruct c as [s|j]; simpl; [done|].
  destruct (isDinkModules j []) as [[[] errs]|e] eqn:Hj; try done.
  by rewrite (isDinkModules_throws j [] e Hj).
Qed.

End Fuel.

(** The bound on the directory walk is never what ends a run: after the
    removal of a file the walk visits at most its ancestors, since the working
    directory cannot be removed. *)
Theorem ensure_never_out_of_fuel {P : Platform} (mods : Modules) (w : World) :
  fst (ensure mods w) <> Err OutOfFuel.
Proof.
  revert w. change (fuelled (ensure mods)). unfold ensure.
  apply fuelled_bind; [apply fuelled_readLockFile|]. intros lockFile.
  apply fuelled_bind.
  - unfold deleteRemovedFiles. destruct lockFile as [lf|];
      [|by apply fuelled_throw].
    apply fuelled_bind.
    + intros w. unfold lift. simpl.
      destruct (removedFiles mods lf) as [l|e] eqn:Hl; [done|].
      by rewrite (removedFiles_error _ _ _ Hl).
    + intros l. apply fuelled_forEach, fuelled_removeFile.
  - intros _. apply fuelled_forEach. intros hv. unfold ensureHost.
    apply fuelled_bind.
    + apply fuelled_forEach. intros i. apply fuelled_writeLinkFile.
    + intros _. apply fuelled_writeFile.
Qed.

(** Pruning is idempotent: after a successful prune, pruning again with the
    same manifest and lock state succeeds and changes nothing. *)
Theorem deleteRemovedFiles_idempotent {P : Platform} (mods : Modules)
  (lockFile : option Modules) (w w' : World) :
  deleteRemovedFiles mods lockFile w = (Ok tt, w') ->
  deleteRemovedFiles mods lockFile w' = (Ok tt, w').
Proof.
  unfold deleteRemovedFiles. destruct lockFile as [lf|]; [|done].
  intros H. apply bind_inv_ok in H as (l & w1 & Hl & Hrun).
  injection Hl as Hl <-.
  rewrite (bind_ok _ _ w' l w') by (unfold lift; by rewrite Hl).
  by apply (prune_again l w w').
Qed.

Lemma deleteRemovedFiles_idempotent_witness :
  deleteRemovedFiles (P := demo) [] (Some [stdEntry])
    (snd (deleteRemovedFiles (P := demo) [] (Some [stdEntry]) vendoredWorld))
  = (Ok tt,
     snd (deleteRemovedFiles (P := demo) [] (Some [stdEntry]) vendoredWorld)).
Proof.
  apply (deleteRemovedFiles_idempotent (P := demo) [] (Some [stdEntry])
           vendoredWorld).
  vm_compute. reflexivity.
Defined.

(** A manifest equal to the lock state marks nothing for removal, provided
    its hosts are distinct and are URLs. *)
Theorem removedFiles_same_manifest {P : Platform} (mods : Modules) :
  NoDup (map fst mods) ->
  Forall (fun kv => is_Some (url_dir (fst kv))) mods ->
  removedFiles mods mods = Ok [].
Proof.
  intros Hnd Hurls.
  destruct (removedFiles_total mods mods Hurls) as [l Hl].
  rewrite Hl. f_equal. apply (removedFiles_self mods mods); [|done].
  intros k v. by apply assoc_NoDup.
Qed.

Lemma removedFiles_same_manifest_witness :
  removedFiles (P := demo) [stdEntry; xEntry] [stdEntry; xEntry] = Ok [].
Proof.
  apply (removedFiles_same_manifest (P := demo) [stdEntry; xEntry]).
  - apply NoDup_cons. split; [|apply NoDup_singleton].
    intros Hin. apply list_elem_of_singleton in Hin. discriminate Hin.
  - constructor; [by eexists|]. constructor; [by eexists|]. constructor.
Defined.

(** After a successful run over a manifest with at least one host, the lock
    file holds the manifest and the file of every module of every host is on
    disk; the lock file reads back as the manifest, except that reading it
    throws a [TypeError] when the manifest has a host named
    [hasOwnProperty]. *)
Theorem ensure_success_state {P : Platform} (mods : Modules) (w0 w1 : World) :
  mods <> [] ->
  ensure mods w0 = (Ok tt, w1) ->
  files w1 !! lockPath = Some (File (Doc (toJson mods)))
  /\ readLockFile w1
     = (match assoc "hasOwnProperty" mods with
        | None => Ok (Some mods)
        | Some _ => Err TypeError
        end, w1)
  /\ forall h m i, (h, m) ∈ mods -> i ∈ modules m ->
       exists dir, url_dir h = Some dir
                   /\ present (files w1) (join dir i) = true.
Proof.
  intros Hne H.
  assert (Hlock : files w1 !! lockPath = Some (File (Doc (toJson mods))))
    by by apply (ensure_ok_lock mods w0).
  split; [done|]. split.
  - destruct (assoc "hasOwnProperty" mods) as [shadow|] eqn:Hown.
    + apply (readLockFile_shadowed mods); [by rewrite Hown|done].
    + by apply readLockFile_of_lock.
  - destruct (ensure_ok_inv mods w0 w1 H)
      as (lock & l0 & wb & _ & _ & _ & _ & Hlinks).
    intros h m i Hhm Hi.
    assert (Hall : forall hv, hv ∈ mods -> forall i, i ∈ modules (snd hv) ->
              exists dir, url_dir (fst hv) = Some dir
                          /\ present (files w1) (join dir i) = true);
      [|exact (Hall (h, m) Hhm i Hi)].
    apply (forEach_each
             (fun hv v => forall i, i ∈ modules (snd hv) ->
                exists dir, url_dir (fst hv) = Some dir
                            /\ present (files v) (join dir i) = true)
             (ensureHost mods (Some lock)) mods) with (w := wb); [| |done].
    + intros hv v v' _ Hhv. by apply (ensureHost_linked _ _ _ _ _ Hhv).
    + intros hv y v r v' _ Hq Hy j Hj.
      destruct (Hq j Hj) as (dir & Hdir & Hp). exists dir. split; [done|].
      by apply (grows_ensureHost _ _ _ _ _ _ Hy).
Qed.

Lemma ensure_success_state_witness :
  files (snd (ensure (P := demo) [stdEntry] freshWorld)) !! lockPath
  = Some (File (Doc (toJson [stdEntry])))
  /\ readLockFile (snd (ensure (P := demo) [stdEntry] freshWorld))
     = (Ok (Some [stdEntry]), snd (ensure (P := demo) [stdEntry] freshWorld))
  /\ forall h m i, (h, m) ∈ [stdEntry] -> i ∈ modules m ->
       exists dir, url_dir (Platform := demo) h = Some dir
                   /\ present
                        (files (snd (ensure (P := demo) [stdEntry] freshWorld)))
                        (join (Platform := demo) dir i) = true.
Proof.
  apply (ensure_success_state (P := demo) [stdEntry] freshWorld
           (snd (ensure (P := demo) [stdEntry] freshWorld))).
  - discriminate.
  - vm_compute. reflexivity.
Defined.

(** A host that is no URL and has no module passes a first run, which
    records it in the lock file; the next run then throws a [TypeError] while
    listing what to prune, and changes nothing. *)
Theorem ensure_records_stray_host {P : Platform} (k v : string) (w : World) :
  url_dir k = None ->
  files w !! lockPath = Some (File (Doc (JObj []))) ->
  exists w',
    ensure [(k, {| version := v; modules := [] |})] w = (Ok tt, w')
    /\ ensure [(k, {| version := v; modules := [] |})] w' = (Err TypeError, w').
Proof.
  intros Hk Hlock.
  set (mods := [(k, {| version := v; modules := [] |})]).
  set (w' := setFiles (<[lockPath := File (Doc (toJson mods))]> (files w)) w).
  exists w'. split.
  - unfold ensure.
    rewrite (bind_ok _ _ w (Some []) w) by by apply (readLockFile_of_lock []).
    rewrite (bind_ok _ _ w tt w) by reflexivity.
    assert (Hhost : ensureHost mods (Some [])
                      (k, {| version := v; modules := [] |}) w = (Ok tt, w')).
    { unfold ensureHost. cbn [forEach snd modules].
      rewrite (bind_ok _ _ w tt w) by reflexivity.
      unfold generateLockFile, writeFile.
      change (isDir (files w) (dirname lockPath)) with true.
      unfold lockPath in *. by rewrite Hlock. }
    unfold mods at 2. cbn [forEach].
    by rewrite (bind_ok _ _ _ _ _ Hhost).
  - unfold ensure.
    destruct (assoc "hasOwnProperty" mods) as [shadow|] eqn:Hown.
    { apply bind_err. apply (readLockFile_shadowed mods); [by rewrite Hown|].
      apply lookup_insert_eq. }
    rewrite (bind_ok _ _ w' (Some mods) w').
    2:{ apply readLockFile_of_lock; [done|]. apply lookup_insert_eq. }
    apply bind_err. unfold deleteRemovedFiles. apply bind_err.
    unfold lift, mods. simpl. by rewrite Hk.
Qed.

Lemma ensure_records_stray_host_witness :
  exists w',
    ensure (P := demo) [strayEntry] freshWorld = (Ok tt, w')
    /\ ensure (P := demo) [strayEntry] w' = (Err TypeError, w').
Proof.
  apply (ensure_records_stray_host (P := demo) "deno.land/std" "@v0.3.2"
           freshWorld); reflexivity.
Defined.

(** ** The command line *)

Lemma ensureDoc_toJson {P : Platform} (mods : Modules) :
  ensureDoc (toJson mods) = ensure mods.
Proof. unfold ensureDoc. by rewrite asModules_toJson. Qed.

Lemma main_unfold {P : Platform} (args : Args) (w : World) :
  noFlag args ->
  main args w
  = if negb (present (files w) (manifestOf args)) then (Exit 1, w)
    else
      match files w !! manifestOf args with
      | Some (File c) =>
          match JSON_parse c with
          | Err e => (Uncaught e, w)
          | Ok j =>
              match isDinkModules j [] with
              | Err e => (Uncaught e, w)
              | Ok (false, _) => (Exit 1, w)
              | Ok (true, _) =>
                  match ensureDoc j w with
                  | (Ok _, w2) => (Exit 0, w2)
                  | (Err e, w2) => (Uncaught e, w2)
                  end
              end
          end
      | _ => (Uncaught (IOError "readFile" (manifestOf args)), w)
      end.
Proof.
  intros (HV & Hver & HH & Hhelp). unfold main, manifestOf, readFile.
  rewrite HV, Hver, HH, Hhelp. simpl orb. cbv iota.
  destruct (negb _); [done|].
  by destruct (files w !! _) as [[c|]|].
Qed.

Lemma noFlag_dec (args : Args) :
  noFlag args \/ (flagV args || flagVer args) || (flagH args || flagHelp args) = true.
Proof.
  unfold noFlag.
  destruct (flagV args), (flagVer args), (flagH args), (flagHelp args);
    simpl; auto.
Qed.

Lemma main_flagged {P : Platform} (args : Args) (w : World) :
  (flagV args || flagVer args) || (flagH args || flagHelp args) = true ->
  main args w = (Exit 0, w).
Proof.
  unfold main. intros H.
  destruct (flagV args || flagVer args); [done|].
  simpl in H. by rewrite H.
Qed.

(** [main] exits with code 1 in exactly two cases, both with the world
    untouched: no version or help flag is set and either the manifest file is
    missing, or it parses and the validator rejects it. *)
Theorem main_exits_1 {P : Platform} (args : Args) (w w' : World) :
  main args w = (Exit 1, w') <->
  w' = w /\ noFlag args
  /\ (present (files w) (manifestOf args) = false
      \/ exists c j errors,
           present (files w) (manifestOf args) = true
           /\ files w !! manifestOf args = Some (File c)
           /\ JSON_parse c = Ok j
           /\ isDinkModules j [] = Ok (false, errors)).
Proof.
  destruct (noFlag_dec args) as [Hno|Hflag].
  - rewrite (main_unfold args w Hno).
    destruct (present (files w) (manifestOf args)) eqn:Hp; simpl negb; cbv iota.
    + destruct (files w !! manifestOf args) as [[c|]|] eqn:Hf.
      * destruct (JSON_parse c) as [j|e] eqn:Hj.
        -- destruct (isDinkModules j []) as [[[] errs]|e] eqn:Hv.
           ++ split.
              ** by destruct (ensureDoc j w) as [[u|e] w2].
              ** intros (_ & _ & [?|(c' & j' & errs' & _ & [= <-] & Hj' & Hv')]);
                   congruence.
           ++ split.
              ** intros [= <-]. split; [done|]. split; [done|]. right.
                 by exists c, j, errs.
              ** by intros (-> & _).
           ++ split; [done|].
              intros (_ & _ & [?|(c' & j' & errs' & _ & [= <-] & Hj' & Hv')]);
                congruence.
        -- split; [done|].
           intros (_ & _ & [?|(c' & j' & errs' & _ & [= <-] & Hj' & Hv')]);
             congruence.
      * split; [done|].
        by intros (_ & _ & [?|(c' & j' & errs' & _ & [=] & _)]).
      * split; [done|].
        by intros (_ & _ & [?|(c' & j' & errs' & _ & [=] & _)]).
    + split.
      * intros [= <-]. auto.
      * by intros (-> & _).
  - rewrite (main_flagged args w Hflag). split; [done|].
    intros (_ & (HV & Hver & HH & Hhelp) & _).
    rewrite HV, Hver, HH, Hhelp in Hflag. discriminate Hflag.
Qed.

Lemma main_exits_1_witness :
  main (P := demo) plainArgs badManifestWorld = (Exit 1, badManifestWorld).
Proof.
  apply (proj2 (main_exits_1 (P := demo) plainArgs badManifestWorld
                  badManifestWorld)).
  split; [reflexivity|]. split; [repeat split|]. right.
  by exists (Doc (JNum "5")), (JNum "5"), [msgNotObject].
Defined.

(** Before it calls [ensure], [main] changes nothing: whenever the world
    after [main] differs from the world before, no flag was set, the manifest
    parsed and was accepted, and the change is that of [ensure] on it. *)
Theorem main_changes_only_through_ensure {P : Platform} (args : Args)
  (w : World) :
  snd (main args w) = w
  \/ (noFlag args
      /\ exists c j errors,
           files w !! manifestOf args = Some (File c)
           /\ JSON_parse c = Ok j
           /\ isDinkModules j [] = Ok (true, errors)
           /\ snd (main args w) = snd (ensureDoc j w)).
Proof.
  destruct (noFlag_dec args) as [Hno|Hflag];
    [|left; by rewrite (main_flagged args w Hflag)].
  rewrite (main_unfold args w Hno).
  destruct (negb _); [by left|].
  destruct (files w !! manifestOf args) as [[c|]|] eqn:Hf; [|by left..].
  destruct (JSON_parse c) as [j|e] eqn:Hj; [|by left].
  destruct (isDinkModules j []) as [[[] errs]|e] eqn:Hv; [|by left..].
  right. split; [done|]. exists c, j, errs.
  by destruct (ensureDoc j w) as [[u|e] w2].
Qed.

(** With no flag set and a manifest file holding a typed manifest, [main]
    ends as [ensure] does on that manifest: exit code 0 when it succeeds, the
    uncaught error when it throws, and [ensure]'s world in both cases.  The
    exception is a manifest with a host named [hasOwnProperty]: the validator
    throws on it, and [main] ends with that [TypeError] and the world
    untouched. *)
Theorem main_runs_ensure {P : Platform} (args : Args) (mods : Modules)
  (w : World) :
  noFlag args ->
  files w !! manifestOf args = Some (File (Doc (toJson mods))) ->
  main args w
  = match assoc "hasOwnProperty" mods with
    | Some _ => (Uncaught TypeError, w)
    | None =>
        (match fst (ensure mods w) with
         | Ok _ => Exit 0
         | Err e => Uncaught e
         end,
         snd (ensure mods w))
    end.
Proof.
  intros Hno Hfile. rewrite (main_unfold args w Hno), Hfile.
  assert (Hp : present (files w) (manifestOf args) = true).
  { unfold present. destruct (manifestOf args); [done|]. by rewrite Hfile. }
  rewrite Hp. simpl negb. cbv iota. unfold JSON_parse.
  destruct (assoc "hasOwnProperty" mods) as [shadow|] eqn:Hown.
  - by rewrite isDinkModules_toJson_shadowed by by rewrite Hown.
  - rewrite isDinkModules_toJson, ensureDoc_toJson by done.
    by destruct (ensure mods w) as [[u|e] w2].
Qed.

Lemma main_runs_ensure_witness :
  main (P := demo) plainArgs projectWorld
  = (match fst (ensure (P := demo) [stdEntry] projectWorld) with
     | Ok _ => Exit 0
     | Err e => Uncaught e
     end,
     snd (ensure (P := demo) [stdEntry] projectWorld)).
Proof.
  apply (main_runs_ensure (P := demo) plainArgs [stdEntry] projectWorld).
  - repeat split.
  - reflexivity.
Defined.

(** A manifest that has a property named [hasOwnProperty] is neither
    accepted nor rejected: the validator throws on it, and [main] ends with
    that [TypeError] uncaught, without exit code 1 and with the world
    untouched. *)
Theorem main_shadowed_manifest {P : Platform} (args : Args) (w : World)
  (kvs : list (string * json)) :
  noFlag args ->
  files w !! manifestOf args = Some (File (Doc (JObj kvs))) ->
  assoc "hasOwnProperty" kvs <> None ->
  main args w = (Uncaught TypeError, w).
Proof.
  intros Hno Hfile Hown. rewrite (main_unfold args w Hno), Hfile.
  assert (Hp : present (files w) (manifestOf args) = true).
  { unfold present. destruct (manifestOf args); [done|]. by rewrite Hfile. }
  rewrite Hp. simpl negb. cbv iota. unfold JSON_parse.
  unfold isDinkModules, ownsHasOwnProperty. cbn [typeof].
  by destruct (assoc "hasOwnProperty" kvs).
Qed.

Lemma main_shadowed_manifest_witness :
  main (P := demo) plainArgs shadowedManifestWorld
  = (Uncaught TypeError, shadowedManifestWorld).
Proof.
  apply (main_shadowed_manifest (P := demo) plainArgs shadowedManifestWorld
           [("hasOwnProperty"%string, moduleToJson (snd stdEntry))]);
    [repeat split|reflexivity|discriminate].
Defined.
